(** * Serum-Enterprises/Cache: a byte-bounded LFU cache (src/src/index.js)

    Shallow embedding of the class [Cache] and the properties its
    specification states about it.

    Modelling conventions.
    - A JavaScript [Map] iterates in insertion order, and both [keys()] and
      the eviction order depend on that order, so a [Map] is an association
      list: [set] on a present key updates it in place, [set] on a fresh key
      appends, [delete] removes.
    - A [Buffer] is its list of bytes; [value.length] is the length of the
      list.  A [Buffer] cannot be resized, so its length is fixed.
    - The numbers of the class ([#maxSize], [#size], the access counts) are
      JavaScript numbers holding integers.  They are modelled by [Z]: the
      constructor only accepts safe integers, [#size] never exceeds
      [#maxSize], and an access count only grows by one per [get], so every
      number stays in the range where JavaScript arithmetic on integers is
      exact.
    - A method takes its parameters as [option jsval]: [None] is
      [undefined] (the argument was left out, or [undefined] was passed,
      which JavaScript does not tell apart).
    - A method returns the cache after the call together with a
      [completion]: the value returned, or the error thrown. *)

From Stdlib Require Import List String ZArith Lia Bool Permutation Sorted.
From Stdlib.Strings Require Import Byte.
Import ListNotations.
Open Scope string_scope.
Open Scope list_scope.
Open Scope Z_scope.

(** ** JavaScript values and completions *)

Definition Buffer := list byte.

Inductive jsval : Type :=
| JString (s : string)         (* typeof v === 'string' *)
| JBuffer (b : Buffer)         (* v instanceof Buffer *)
| JInt (z : Z)                 (* a number whose value is the integer z *)
| JNonInt                      (* any other number: fractional, NaN, +-Infinity *)
| JNull
| JBool (b : bool)
| JObject.                     (* any other object *)

Inductive error : Type :=
| TypeError (msg : string).

Inductive completion (A : Type) : Type :=
| Normal (a : A)
| Throw (e : error).
Arguments Normal {A} a.
Arguments Throw {A} e.

Definition MAX_SAFE_INTEGER : Z := 2 ^ 53 - 1.

(** [Number.isSafeInteger(v)] *)
Definition isSafeInteger (v : jsval) : bool :=
  match v with
  | JInt z => Z.abs z <=? MAX_SAFE_INTEGER
  | _ => false
  end.

(** [typeof v === 'string'] and [v instanceof Buffer] on a parameter. *)
Definition is_string (a : option jsval) : bool :=
  match a with Some (JString _) => true | _ => false end.

Definition is_buffer (a : option jsval) : bool :=
  match a with Some (JBuffer _) => true | _ => false end.

Definition byteLength (b : Buffer) : Z := Z.of_nat (List.length b).

(** ** Insertion-ordered maps with string keys (JavaScript [Map]) *)

Module JSMap.
Section Ops.
Context {V : Type}.

Definition t : Type := list (string * V).

Definition empty : t := [].

Fixpoint get (k : string) (m : t) : option V :=
  match m with
  | [] => None
  | (k', v) :: r => if String.eqb k k' then Some v else get k r
  end.

Definition has (k : string) (m : t) : bool :=
  match get k m with Some _ => true | None => false end.

(** A present key keeps its position; a fresh key goes to the end. *)
Fixpoint set (k : string) (v : V) (m : t) : t :=
  match m with
  | [] => [(k, v)]
  | (k', v') :: r =>
      if String.eqb k k' then (k, v) :: r else (k', v') :: set k v r
  end.

Fixpoint delete (k : string) (m : t) : t :=
  match m with
  | [] => []
  | (k', v') :: r =>
      if String.eqb k k' then delete k r else (k', v') :: delete k r
  end.

Definition keys (m : t) : list string := map fst m.

Definition entries (m : t) : list (string * V) := m.

Definition clear (m : t) : t := [].
End Ops.
Arguments t V : clear implicits.
End JSMap.

(** ** [Array.prototype.sort] with the comparator [(a, b) => a[1] - b[1]]

    The sort is stable: ascending by count, entries of equal count in
    their order in the array. *)

Fixpoint sort_insert (e : string * Z) (l : list (string * Z)) : list (string * Z) :=
  match l with
  | [] => [e]
  | x :: r => if snd e <=? snd x then e :: x :: r else x :: sort_insert e r
  end.

Fixpoint sort_by_count (l : list (string * Z)) : list (string * Z) :=
  match l with
  | [] => []
  | e :: r => sort_insert e (sort_by_count r)
  end.

Definition le_count (a b : string * Z) : Prop := snd a <= snd b.

(** ** The class [Cache] *)

Record Cache : Type := mkCache {
  p_maxSize : Z;                    (* #maxSize *)
  p_size : Z;                       (* #size *)
  p_data : JSMap.t Buffer;          (* #data *)
  p_accessCount : JSMap.t Z         (* #accessCount *)
}.

(** [constructor(maxSize = 0)] *)
Definition constructor (arg : option jsval) : completion Cache :=
  let maxSize := match arg with None => JInt 0 | Some v => v end in
  match maxSize with
  | JInt z =>
      if negb (isSafeInteger maxSize) || (z <? 0)
      then Throw (TypeError "Expected maxSize to be a positive Integer")
      else Normal (mkCache z 0 JSMap.empty JSMap.empty)
  | _ => Throw (TypeError "Expected maxSize to be a positive Integer")
  end.

(** [get size()] and [get maxSize()] *)
Definition size (c : Cache) : Z := p_size c.
Definition maxSize (c : Cache) : Z := p_maxSize c.

(** [#hasCapacity(value)] *)
Definition hasCapacity (value : Z) (c : Cache) : bool :=
  value <=? p_maxSize c - p_size c.

(** [keys()] *)
Definition keys (c : Cache) : list string := JSMap.keys (p_data c).

(** [delete(key)] *)
Definition delete (key : option jsval) (c : Cache) : Cache * completion bool :=
  match key with
  | Some (JString k) =>
      match JSMap.get k (p_data c) with
      | None => (c, Normal false)
      | Some v =>
          (mkCache (p_maxSize c)
                   (p_size c - byteLength v)
                   (JSMap.delete k (p_data c))
                   (JSMap.delete k (p_accessCount c)),
           Normal true)
      end
  | _ => (c, Throw (TypeError "Expected key to be a String"))
  end.

(** The [while] loop of [#free]: [sortedAccessCounts.shift()] takes the
    head of the sorted array, so the loop is a recursion on that array. *)
Fixpoint free_loop (neededSize : Z) (sortedAccessCounts : list (string * Z))
    (c : Cache) : Cache :=
  match sortedAccessCounts with
  | [] => c
  | e :: rest =>
      if hasCapacity neededSize c then c
      else free_loop neededSize rest (fst (delete (Some (JString (fst e))) c))
  end.

(** [#free(neededSize)] *)
Definition free (neededSize : Z) (c : Cache) : Cache :=
  if hasCapacity neededSize c then c
  else free_loop neededSize
         (sort_by_count (JSMap.entries (p_accessCount c))) c.

(** [get(key)].  The count of a stored key is always recorded
    ([stored_keys_counted] below), so the last branch is never taken. *)
Definition get (key : option jsval) (c : Cache) : Cache * completion (option Buffer) :=
  match key with
  | Some (JString k) =>
      match JSMap.get k (p_data c) with
      | None => (c, Normal None)
      | Some v =>
          match JSMap.get k (p_accessCount c) with
          | Some n =>
              (mkCache (p_maxSize c) (p_size c) (p_data c)
                       (JSMap.set k (n + 1) (p_accessCount c)),
               Normal (Some v))
          | None => (c, Normal (Some v))
          end
      end
  | _ => (c, Throw (TypeError "Expected key to be a String"))
  end.

(** [set(key, value)]; it returns [this], the cache of the result. *)
Definition set (key value : option jsval) (c : Cache) : Cache * completion unit :=
  match key with
  | Some (JString k) =>
      match value with
      | Some (JBuffer v) =>
          if p_maxSize c <? byteLength v then (c, Normal tt)
          else
            let accessCount :=
              match JSMap.get k (p_accessCount c) with
              | Some n => n
              | None => 0
              end in
            let c1 := fst (delete key c) in
            let c2 := free (byteLength v) c1 in
            (mkCache (p_maxSize c2)
                     (p_size c2 + byteLength v)
                     (JSMap.set k v (p_data c2))
                     (JSMap.set k accessCount (p_accessCount c2)),
             Normal tt)
      | _ => (c, Throw (TypeError "Expected value to be an instance of Buffer"))
      end
  | _ => (c, Throw (TypeError "Expected key to be a String"))
  end.

(** [rename(oldKey, newKey)].  The old key is stored when its count is
    read, so the count is recorded ([stored_keys_counted] below). *)
Definition rename (oldKey newKey : option jsval) (c : Cache) : Cache * completion bool :=
  match oldKey with
  | Some (JString o) =>
      match newKey with
      | Some (JString n) =>
          match JSMap.get o (p_data c) with
          | None => (c, Normal false)
          | Some v =>
              if JSMap.has n (p_data c) then (c, Normal false)
              else
                let ac :=
                  match JSMap.get o (p_accessCount c) with
                  | Some cnt => JSMap.set n cnt (p_accessCount c)
                  | None => p_accessCount c
                  end in
                (mkCache (p_maxSize c) (p_size c)
                         (JSMap.delete o (JSMap.set n v (p_data c)))
                         ac,
                 Normal true)
          end
      | _ => (c, Throw (TypeError "Expected newKey to be a String"))
      end
  | _ => (c, Throw (TypeError "Expected oldKey to be a String"))
  end.

(** [has(key)] *)
Definition has (key : option jsval) (c : Cache) : Cache * completion bool :=
  match key with
  | Some (JString k) => (c, Normal (JSMap.has k (p_data c)))
  | _ => (c, Throw (TypeError "Expected key to be a String"))
  end.

(** [clear()] *)
Definition clear (c : Cache) : Cache :=
  mkCache (p_maxSize c) 0 (JSMap.clear (p_data c)) (JSMap.clear (p_accessCount c)).

(** ** Sequences of public calls *)

Inductive call : Type :=
| CallGet (key : option jsval)
| CallSet (key value : option jsval)
| CallRename (oldKey newKey : option jsval)
| CallHas (key : option jsval)
| CallDelete (key : option jsval)
| CallKeys
| CallClear
| CallSize
| CallMaxSize.

(** The cache after one call (whether it returned or threw). *)
Definition step (o : call) (c : Cache) : Cache :=
  match o with
  | CallGet k => fst (get k c)
  | CallSet k v => fst (set k v c)
  | CallRename o n => fst (rename o n c)
  | CallHas k => fst (has k c)
  | CallDelete k => fst (delete k c)
  | CallClear => clear c
  | CallKeys | CallSize | CallMaxSize => c
  end.

Definition run (ops : list call) (c : Cache) : Cache :=
  fold_left (fun c o => step o c) ops c.

(** The caches after each call of a sequence, in order. *)
Fixpoint trace (ops : list call) (c : Cache) : list Cache :=
  match ops with
  | [] => []
  | o :: r => step o c :: trace r (step o c)
  end.

(** The caches a program can hold: built by the constructor, then changed
    by public calls only (the fields are private). *)
Inductive reachable : Cache -> Prop :=
| reach_new (arg : option jsval) (c : Cache) :
    constructor arg = Normal c -> reachable c
| reach_step (o : call) (c : Cache) :
    reachable c -> reachable (step o c).

(** Sum of the byte lengths of the stored values. *)
Fixpoint total_bytes (m : JSMap.t Buffer) : Z :=
  match m with
  | [] => 0
  | (_, v) :: r => byteLength v + total_bytes r
  end.

(** The frequency counter of the entry stored under [k], and the value. *)
Definition frequency (k : string) (c : Cache) : option Z :=
  if JSMap.has k (p_data c) then JSMap.get k (p_accessCount c) else None.

Definition stored (k : string) (c : Cache) : bool := JSMap.has k (p_data c).

(** ** Eviction as the specification words it

    "While the value does not fit and at least one entry remains, evict the
    single entry with the lowest frequency counter; among entries of equal
    frequency, the one earliest in the frequency table." *)

(** The entry of lowest count, the earliest one among equals. *)
Fixpoint min_entry (l : list (string * Z)) : option (string * Z) :=
  match l with
  | [] => None
  | e :: r =>
      match min_entry r with
      | Some m => if snd m <? snd e then Some m else Some e
      | None => Some e
      end
  end.

(** The frequency records of the stored entries, in table order. *)
Definition stored_counts (c : Cache) : list (string * Z) :=
  filter (fun e => JSMap.has (fst e) (p_data c)) (JSMap.entries (p_accessCount c)).

Fixpoint evict_lfu (fuel : nat) (neededSize : Z) (c : Cache) : Cache :=
  match fuel with
  | O => c
  | S fuel' =>
      if hasCapacity neededSize c then c
      else
        match min_entry (stored_counts c) with
        | None => c
        | Some e => evict_lfu fuel' neededSize (fst (delete (Some (JString (fst e))) c))
        end
  end.

(** A sequence of calls that never passes a zero-length [Buffer] to [set]. *)
Definition sets_nonempty (ops : list call) : Prop :=
  Forall (fun o => match o with
                   | CallSet _ (Some (JBuffer [])) => False
                   | _ => True
                   end) ops.

(** Arguments of the right type, for examples. *)
Definition str (s : string) : option jsval := Some (JString s).
Definition buf (b : Buffer) : option jsval := Some (JBuffer b).
Definition num (z : Z) : option jsval := Some (JInt z).

(** A history on a cache of capacity 3: ["x"] is read once, ["a"] twice,
    then ["a"] is renamed to ["b"]. *)
Definition one_byte : Buffer := [x00].

Definition history_rename : list call :=
  [ CallSet (str "x") (buf one_byte); CallGet (str "x");
    CallSet (str "a") (buf one_byte); CallGet (str "a"); CallGet (str "a");
    CallRename (str "a") (str "b") ].

Definition cache_of_capacity (z : Z) : Cache := mkCache z 0 [] [].

(** A sequence of calls that never calls [rename]. *)
Definition renames_nothing (ops : list call) : Prop :=
  Forall (fun o => match o with
                   | CallRename _ _ => False
                   | _ => True
                   end) ops.

(** No frequency record is negative. *)
Definition counts_nonneg (c : Cache) : Prop :=
  Forall (fun e => 0 <= snd e) (p_accessCount c).

(** ** The representation invariant of the class *)

Record wf (c : Cache) : Prop := mkWf {
  wf_data_keys : NoDup (JSMap.keys (p_data c));
  wf_count_keys : NoDup (JSMap.keys (p_accessCount c));
  wf_counted : forall k,
      JSMap.has k (p_data c) = true -> JSMap.has k (p_accessCount c) = true;
  wf_size : p_size c = total_bytes (p_data c);
  wf_fits : p_size c <= p_maxSize c
}.

(** * Properties *)

(** ** Facts about insertion-ordered maps *)

Module JSMapFacts.
Import JSMap.

Ltac keq a b :=
  let E := fresh "E" in
  destruct (String.eqb_spec a b) as [E | E]; [try subst | idtac];
  simpl; try congruence.

Section Facts.
Context {V : Type}.
Implicit Types (m : t V) (k : string) (v : V).

Lemma get_set_same k v m : get k (set k v m) = Some v.
Proof.
  induction m as [| [k' v'] r IH]; simpl.
  - now rewrite String.eqb_refl.
  - keq k k'.
    + now rewrite String.eqb_refl.
    + destruct (String.eqb_spec k k'); congruence.
Qed.

Lemma get_set_other k k' v m : k <> k' -> get k' (set k v m) = get k' m.
Proof.
  intros N. induction m as [| [k0 v0] r IH]; simpl.
  - keq k' k.
  - keq k k0.
    + keq k' k0.
    + keq k' k0.
Qed.

Lemma get_delete_same k m : get k (delete k m) = None.
Proof.
  induction m as [| [k0 v0] r IH]; simpl; auto.
  keq k k0. destruct (String.eqb_spec k k0); congruence.
Qed.

Lemma get_delete_other k k' m : k <> k' -> get k' (delete k m) = get k' m.
Proof.
  intros N. induction m as [| [k0 v0] r IH]; simpl; auto.
  keq k k0.
  - keq k' k0.
  - keq k' k0.
Qed.

Lemma has_true_iff k m : has k m = true <-> exists v, get k m = Some v.
Proof.
  unfold has. destruct (get k m); split; intros H; try discriminate; eauto.
  destruct H; discriminate.
Qed.

Lemma has_false_iff k m : has k m = false <-> get k m = None.
Proof. unfold has. destruct (get k m); split; congruence. Qed.

Lemma get_In_keys k m : get k m <> None <-> In k (keys m).
Proof.
  induction m as [| [k0 v0] r IH]; simpl.
  - split; [congruence | tauto].
  - keq k k0.
    + split; auto. congruence.
    + rewrite IH. split; auto. intros [? | ?]; congruence.
Qed.

Lemma has_In_keys k m : has k m = true <-> In k (keys m).
Proof.
  rewrite <- get_In_keys. unfold has.
  destruct (get k m); split; congruence.
Qed.

Lemma get_None_not_In k m : get k m = None <-> ~ In k (keys m).
Proof.
  rewrite <- get_In_keys. destruct (get k m); split; intros H.
  - discriminate.
  - exfalso. apply H. discriminate.
  - intros N. now apply N.
  - reflexivity.
Qed.

Lemma delete_absent k m : get k m = None -> delete k m = m.
Proof.
  induction m as [| [k0 v0] r IH]; simpl; auto.
  keq k k0. intros H. now rewrite IH.
Qed.

Lemma set_fresh k v m : get k m = None -> set k v m = m ++ [(k, v)].
Proof.
  induction m as [| [k0 v0] r IH]; simpl; auto.
  keq k k0. intros H. now rewrite IH.
Qed.

Lemma keys_set_present k v m : has k m = true -> keys (set k v m) = keys m.
Proof.
  unfold has.
  induction m as [| [k0 v0] r IH]; simpl; try discriminate.
  keq k k0. intros H. now rewrite IH.
Qed.

Lemma keys_delete k m :
  keys (delete k m) = filter (fun x => negb (String.eqb k x)) (keys m).
Proof.
  induction m as [| [k0 v0] r IH]; simpl; auto.
  keq k k0.
Qed.

Lemma In_keys_delete k k' m :
  In k' (keys (delete k m)) <-> k' <> k /\ In k' (keys m).
Proof.
  rewrite keys_delete, filter_In, negb_true_iff, String.eqb_neq.
  split; intros [A B]; split; auto.
Qed.

Lemma NoDup_keys_delete k m : NoDup (keys m) -> NoDup (keys (delete k m)).
Proof. rewrite keys_delete. apply NoDup_filter. Qed.

Lemma NoDup_keys_set k v m : NoDup (keys m) -> NoDup (keys (set k v m)).
Proof.
  intros H. destruct (get k m) eqn:G.
  - rewrite keys_set_present; auto. unfold has. now rewrite G.
  - rewrite set_fresh by auto. unfold keys. rewrite map_app. simpl.
    apply NoDup_app; auto.
    + repeat constructor. simpl. tauto.
    + intros x Hx [<- | []]. apply get_None_not_In in G. auto.
Qed.

Lemma In_keys_set k k' v m :
  In k' (keys (set k v m)) <-> k' = k \/ In k' (keys m).
Proof.
  rewrite <- !get_In_keys.
  destruct (String.eqb_spec k k') as [-> | N].
  - rewrite get_set_same. split; auto. congruence.
  - rewrite get_set_other by auto. split; auto. intros [? | ?]; congruence.
Qed.

Lemma filter_keys_delete (p : string * V -> bool) k m :
  filter p (delete k m) = delete k (filter p m).
Proof.
  induction m as [| [k0 v0] r IH]; simpl; auto.
  destruct (String.eqb k k0) eqn:E; destruct (p (k0, v0)) eqn:P;
    simpl; rewrite ?E, ?P; congruence.
Qed.
End Facts.
End JSMapFacts.

Module MF := JSMapFacts.

(** ** Size accounting *)

Lemma byteLength_nonneg (v : Buffer) : 0 <= byteLength v.
Proof. unfold byteLength. lia. Qed.

Lemma total_bytes_nonneg (m : JSMap.t Buffer) : 0 <= total_bytes m.
Proof.
  induction m as [| [k v] r IH]; simpl; [lia |].
  pose proof (byteLength_nonneg v). lia.
Qed.

Lemma total_bytes_app (m1 m2 : JSMap.t Buffer) :
  total_bytes (m1 ++ m2) = total_bytes m1 + total_bytes m2.
Proof. induction m1 as [| [k v] r IH]; simpl; lia. Qed.

Lemma total_bytes_delete (k : string) (v : Buffer) (m : JSMap.t Buffer) :
  NoDup (JSMap.keys m) -> JSMap.get k m = Some v ->
  total_bytes (JSMap.delete k m) = total_bytes m - byteLength v.
Proof.
  induction m as [| [k0 v0] r IH]; simpl; [discriminate |].
  intros ND G. inversion ND as [| ? ? Hnotin ND']; subst.
  destruct (String.eqb_spec k k0) as [-> | N].
  - inversion G; subst. rewrite MF.delete_absent; [lia |].
    now apply MF.get_None_not_In.
  - simpl. rewrite IH by auto. lia.
Qed.

Lemma total_bytes_set_fresh (k : string) (v : Buffer) (m : JSMap.t Buffer) :
  JSMap.get k m = None ->
  total_bytes (JSMap.set k v m) = total_bytes m + byteLength v.
Proof.
  intros G. rewrite MF.set_fresh by auto. rewrite total_bytes_app. simpl. lia.
Qed.

(** ** Every public call keeps the representation invariant *)

Lemma constructor_wf (arg : option jsval) (c : Cache) :
  constructor arg = Normal c -> wf c.
Proof.
  unfold constructor. intros H.
  destruct (match arg with Some v => v | None => JInt 0 end); try discriminate.
  destruct (negb (isSafeInteger (JInt z)) || (z <? 0)) eqn:E; try discriminate.
  inversion H; subst; clear H.
  apply orb_false_iff in E as [_ E]. apply Z.ltb_ge in E.
  constructor; simpl; auto; try constructor; discriminate.
Qed.

Lemma delete_wf (key : option jsval) (c : Cache) :
  wf c -> wf (fst (delete key c)).
Proof.
  intros W. destruct key as [[k | | | | | |] |]; simpl; auto.
  destruct (JSMap.get k (p_data c)) as [v |] eqn:G; simpl; auto.
  destruct W as [Wd Wa Wc Ws Wf].
  constructor; simpl.
  - now apply MF.NoDup_keys_delete.
  - now apply MF.NoDup_keys_delete.
  - intros k'. rewrite !MF.has_In_keys, !MF.In_keys_delete.
    intros [N I]. split; auto. apply MF.has_In_keys, Wc, MF.has_In_keys, I.
  - rewrite (total_bytes_delete k v) by auto. lia.
  - pose proof (byteLength_nonneg v). lia.
Qed.

Lemma delete_maxSize (key : option jsval) (c : Cache) :
  p_maxSize (fst (delete key c)) = p_maxSize c.
Proof.
  destruct key as [[k | | | | | |] |]; simpl; auto.
  destruct (JSMap.get k (p_data c)); reflexivity.
Qed.

Lemma free_loop_wf (neededSize : Z) (l : list (string * Z)) (c : Cache) :
  wf c -> wf (free_loop neededSize l c).
Proof.
  revert c. induction l as [| e r IH]; intros c W; cbn [free_loop]; auto.
  destruct (hasCapacity neededSize c); auto using delete_wf.
Qed.

Lemma free_loop_maxSize (neededSize : Z) (l : list (string * Z)) (c : Cache) :
  p_maxSize (free_loop neededSize l c) = p_maxSize c.
Proof.
  revert c. induction l as [| e r IH]; intros c; cbn [free_loop]; auto.
  destruct (hasCapacity neededSize c); auto.
  now rewrite IH, delete_maxSize.
Qed.

Lemma free_wf (neededSize : Z) (c : Cache) : wf c -> wf (free neededSize c).
Proof.
  intros W. unfold free.
  destruct (hasCapacity neededSize c); auto using free_loop_wf.
Qed.

Lemma free_maxSize (neededSize : Z) (c : Cache) :
  p_maxSize (free neededSize c) = p_maxSize c.
Proof.
  unfold free. destruct (hasCapacity neededSize c); auto using free_loop_maxSize.
Qed.

(** The stable sort keeps the entries. *)
Lemma In_sort_insert (e x : string * Z) (l : list (string * Z)) :
  In x (sort_insert e l) <-> x = e \/ In x l.
Proof.
  induction l as [| y r IH]; simpl.
  - intuition.
  - destruct (snd e <=? snd y); simpl; rewrite ?IH; intuition.
Qed.

Lemma In_sort_by_count (x : string * Z) (l : list (string * Z)) :
  In x (sort_by_count l) <-> In x l.
Proof.
  induction l as [| y r IH]; simpl; [tauto |].
  rewrite In_sort_insert, IH. intuition.
Qed.

(** When the loop of [#free] stops, the value fits or nothing is stored. *)
Lemma free_loop_stops (neededSize : Z) (l : list (string * Z)) (c : Cache) :
  wf c ->
  (forall k, JSMap.has k (p_data c) = true -> In k (map fst l)) ->
  hasCapacity neededSize (free_loop neededSize l c) = true
  \/ p_data (free_loop neededSize l c) = [].
Proof.
  revert c. induction l as [| e r IH]; intros c W Hin; cbn [free_loop map].
  - right. destruct (p_data c) as [| [k v] m] eqn:D; auto.
    exfalso. apply (Hin k). unfold JSMap.has. simpl.
    now rewrite String.eqb_refl.
  - destruct (hasCapacity neededSize c) eqn:Cap; auto.
    apply IH; [now apply delete_wf |].
    intros k. simpl.
    destruct (JSMap.get (fst e) (p_data c)) as [v |] eqn:G; simpl.
    + rewrite MF.has_In_keys, MF.In_keys_delete. intros [N I].
      apply MF.has_In_keys, Hin in I. simpl in I. destruct I; congruence.
    + intros H. destruct (Hin k H) as [E | I]; auto.
      subst k. apply MF.has_true_iff in H as [v H]. congruence.
Qed.

Lemma free_makes_room (neededSize : Z) (c : Cache) :
  wf c -> neededSize <= p_maxSize c ->
  hasCapacity neededSize (free neededSize c) = true.
Proof.
  intros W Hn. unfold free.
  destruct (hasCapacity neededSize c) eqn:Cap; auto.
  destruct (free_loop_stops neededSize
              (sort_by_count (JSMap.entries (p_accessCount c))) c W) as [H | H]; auto.
  - intros k Hk. apply (wf_counted c W), MF.has_In_keys in Hk.
    unfold JSMap.keys in Hk. apply in_map_iff in Hk as [x [Hx Hi]].
    apply in_map_iff. exists x. split; auto. now apply In_sort_by_count.
  - pose proof (free_loop_wf neededSize
                  (sort_by_count (JSMap.entries (p_accessCount c))) c W) as W'.
    pose proof (free_loop_maxSize neededSize
                  (sort_by_count (JSMap.entries (p_accessCount c))) c) as M.
    unfold hasCapacity. rewrite (wf_size _ W'), H, M. simpl.
    apply Z.leb_le. lia.
Qed.

(** ** What eviction leaves in place *)

Lemma filter_all {A : Type} (f : A -> bool) (l : list A) :
  (forall x, In x l -> f x = true) -> filter f l = l.
Proof.
  induction l as [| a r IH]; simpl; intros H; auto.
  rewrite (H a) by auto. f_equal. auto.
Qed.

Lemma filter_filter_sub {A : Type} (f g : A -> bool) (l : list A) :
  (forall x, In x l -> f x = true -> g x = true) ->
  filter f (filter g l) = filter f l.
Proof.
  induction l as [| a r IH]; simpl; intros H; auto.
  destruct (g a) eqn:G; simpl.
  - destruct (f a); rewrite IH; auto.
  - destruct (f a) eqn:F.
    + rewrite (H a) in G; auto; discriminate.
    + auto.
Qed.

Lemma keys_stored (c : Cache) :
  keys c = filter (fun x => stored x c) (keys c).
Proof.
  symmetry. apply filter_all. intros x Hx. now apply MF.has_In_keys.
Qed.

Lemma delete_keys (key : option jsval) (c : Cache) :
  keys (fst (delete key c)) =
  filter (fun x => stored x (fst (delete key c))) (keys c).
Proof.
  destruct key as [[k | | | | | |] |]; simpl; try apply keys_stored.
  destruct (JSMap.get k (p_data c)) as [v |] eqn:G; simpl; try apply keys_stored.
  unfold keys, stored; simpl. rewrite MF.keys_delete.
  apply filter_ext_in. intros x Hx.
  destruct (String.eqb_spec k x) as [-> | N]; simpl; symmetry.
  - apply MF.has_false_iff, MF.get_delete_same.
  - apply MF.has_In_keys, MF.In_keys_delete. split; auto.
Qed.

Lemma free_loop_keys (neededSize : Z) (l : list (string * Z)) (c : Cache) :
  keys (free_loop neededSize l c) =
  filter (fun x => stored x (free_loop neededSize l c)) (keys c).
Proof.
  revert c. induction l as [| e r IH]; intros c; cbn [free_loop].
  - apply keys_stored.
  - destruct (hasCapacity neededSize c); [apply keys_stored |].
    rewrite IH at 1. rewrite delete_keys. apply filter_filter_sub.
    intros x _ Hx. apply MF.has_In_keys.
    set (c1 := fst (delete (Some (JString (fst e))) c)) in *.
    apply MF.has_In_keys in Hx.
    change (In x (keys (free_loop neededSize r c1))) in Hx.
    rewrite IH in Hx. apply filter_In in Hx. tauto.
Qed.

Lemma free_keys (neededSize : Z) (c : Cache) :
  keys (free neededSize c) =
  filter (fun x => stored x (free neededSize c)) (keys c).
Proof.
  unfold free. destruct (hasCapacity neededSize c);
    [apply keys_stored | apply free_loop_keys].
Qed.

Lemma free_absent (neededSize : Z) (k : string) (c : Cache) :
  JSMap.get k (p_data c) = None ->
  JSMap.get k (p_data (free neededSize c)) = None.
Proof.
  intros G. apply MF.get_None_not_In. fold (keys (free neededSize c)).
  rewrite free_keys, filter_In. intros [I _].
  apply MF.get_None_not_In in G. auto.
Qed.

Lemma delete_absent_after (k : string) (c : Cache) :
  JSMap.get k (p_data (fst (delete (Some (JString k)) c))) = None.
Proof.
  simpl. destruct (JSMap.get k (p_data c)) eqn:G; simpl; auto.
  apply MF.get_delete_same.
Qed.

Lemma set_wf (key value : option jsval) (c : Cache) :
  wf c -> wf (fst (set key value c)).
Proof.
  intros W. unfold set.
  destruct key as [[k | | | | | |] |]; try exact W.
  destruct value as [[| v | | | | |] |]; try exact W.
  destruct (p_maxSize c <? byteLength v) eqn:Big; [exact W |].
  apply Z.ltb_ge in Big. cbn [fst].
  set (c1 := fst (delete (Some (JString k)) c)).
  set (c2 := free (byteLength v) c1).
  assert (W1 : wf c1) by now apply delete_wf.
  assert (W2 : wf c2) by now apply free_wf.
  assert (M : p_maxSize c2 = p_maxSize c)
    by (unfold c2, c1; now rewrite free_maxSize, delete_maxSize).
  assert (Cap : hasCapacity (byteLength v) c2 = true).
  { apply free_makes_room; auto. unfold c1. rewrite delete_maxSize. lia. }
  assert (Fresh : JSMap.get k (p_data c2) = None)
    by apply free_absent, delete_absent_after.
  destruct W2 as [Wd Wa Wc Ws Wf].
  constructor; simpl.
  - now apply MF.NoDup_keys_set.
  - now apply MF.NoDup_keys_set.
  - intros k'. rewrite !MF.has_In_keys, !MF.In_keys_set.
    intros [E | I]; auto. right. apply MF.has_In_keys, Wc, MF.has_In_keys, I.
  - rewrite total_bytes_set_fresh by auto. lia.
  - unfold hasCapacity in Cap. apply Z.leb_le in Cap. lia.
Qed.

Lemma get_wf (key : option jsval) (c : Cache) : wf c -> wf (fst (get key c)).
Proof.
  intros W. unfold get.
  destruct key as [[k | | | | | |] |]; try exact W.
  destruct (JSMap.get k (p_data c)) as [v |] eqn:G; try exact W.
  destruct (JSMap.get k (p_accessCount c)) as [n |] eqn:A; try exact W.
  destruct W as [Wd Wa Wc Ws Wf].
  constructor; simpl; auto.
  - now apply MF.NoDup_keys_set.
  - intros k' H. apply MF.has_In_keys, MF.In_keys_set. right.
    apply MF.has_In_keys, Wc, H.
Qed.

Lemma rename_wf (oldKey newKey : option jsval) (c : Cache) :
  wf c -> wf (fst (rename oldKey newKey c)).
Proof.
  intros W. unfold rename.
  destruct oldKey as [[o | | | | | |] |]; try exact W.
  destruct newKey as [[n | | | | | |] |]; try exact W.
  destruct (JSMap.get o (p_data c)) as [v |] eqn:G; try exact W.
  destruct (JSMap.has n (p_data c)) eqn:Hn; try exact W.
  apply MF.has_false_iff in Hn.
  assert (N : n <> o) by congruence.
  destruct W as [Wd Wa Wc Ws Wf].
  assert (Ho : JSMap.has o (p_accessCount c) = true).
  { apply Wc. unfold JSMap.has. now rewrite G. }
  apply MF.has_true_iff in Ho as [cnt Ho]. rewrite Ho.
  constructor; simpl; auto.
  - now apply MF.NoDup_keys_delete, MF.NoDup_keys_set.
  - now apply MF.NoDup_keys_set.
  - intros k'. rewrite !MF.has_In_keys, MF.In_keys_delete, !MF.In_keys_set.
    intros [_ [E | I]]; auto. right. apply MF.has_In_keys, Wc, MF.has_In_keys, I.
  - rewrite (total_bytes_delete o v).
    + rewrite total_bytes_set_fresh by auto. lia.
    + now apply MF.NoDup_keys_set.
    + now rewrite MF.get_set_other.
Qed.

Lemma clear_wf (c : Cache) : wf c -> wf (clear c).
Proof.
  intros [Wd Wa Wc Ws Wf].
  constructor; simpl; auto; try constructor.
  pose proof (total_bytes_nonneg (p_data c)). lia.
Qed.

Lemma step_wf (o : call) (c : Cache) : wf c -> wf (step o c).
Proof.
  intros W. destruct o; simpl;
    auto using get_wf, set_wf, rename_wf, delete_wf, clear_wf.
  destruct key as [[k | | | | | |] |]; exact W.
Qed.

Lemma reachable_wf (c : Cache) : reachable c -> wf c.
Proof.
  induction 1 as [arg c H | o c R IH];
    eauto using constructor_wf, step_wf.
Qed.

(** A stored key always has a frequency record, so [get] and [rename]
    always find the count they read. *)
Lemma stored_keys_counted (c : Cache) (k : string) :
  reachable c -> stored k c = true ->
  exists n, JSMap.get k (p_accessCount c) = Some n.
Proof.
  intros R S. apply MF.has_true_iff, (wf_counted c (reachable_wf c R)), S.
Qed.

Lemma run_reachable (ops : list call) (c : Cache) :
  reachable c -> reachable (run ops c).
Proof.
  revert c. induction ops as [| o r IH]; intros c R; simpl; auto.
  apply IH. now constructor.
Qed.

Lemma trace_wf (ops : list call) (c : Cache) :
  wf c -> Forall wf (trace ops c).
Proof.
  revert c. induction ops as [| o r IH]; intros c W; simpl; constructor;
    auto using step_wf.
Qed.

(** ** C1: size accounting and the capacity bound *)

(** C1.  Build a cache with any accepted capacity and make any sequence of
    public calls on it (calls with ill-typed arguments throw and are part
    of the sequence too).  After each call, [size] is the sum of the byte
    lengths of the stored values, and [size] is at most [maxSize]. *)
Theorem size_invariant (arg : option jsval) (c0 : Cache) (ops : list call) :
  constructor arg = Normal c0 ->
  Forall (fun c => size c = total_bytes (p_data c) /\ size c <= maxSize c)
         (c0 :: trace ops c0).
Proof.
  intros H. apply constructor_wf in H.
  assert (F : Forall wf (c0 :: trace ops c0))
    by (constructor; auto using trace_wf).
  eapply Forall_impl; [| exact F].
  intros c [_ _ _ Ws Wf]. unfold size, maxSize. auto.
Qed.

(** ** The stable sort and the entry of lowest count *)

Lemma sort_insert_perm (e : string * Z) (l : list (string * Z)) :
  Permutation (e :: l) (sort_insert e l).
Proof.
  induction l as [| x r IH]; simpl; auto.
  destruct (snd e <=? snd x); auto.
  eapply perm_trans; [apply perm_swap |]. now constructor.
Qed.

Lemma sort_by_count_perm (l : list (string * Z)) :
  Permutation l (sort_by_count l).
Proof.
  induction l as [| e r IH]; simpl; auto.
  eapply perm_trans; [| apply sort_insert_perm]. now constructor.
Qed.

Lemma sort_by_count_nil (l : list (string * Z)) :
  sort_by_count l = [] -> l = [].
Proof.
  intros H. apply Permutation_nil. rewrite <- H.
  apply Permutation_sym, sort_by_count_perm.
Qed.

Lemma NoDup_keys_sort (l : list (string * Z)) :
  NoDup (map fst l) -> NoDup (map fst (sort_by_count l)).
Proof.
  apply Permutation_NoDup, Permutation_map, sort_by_count_perm.
Qed.

Lemma NoDup_keys_filter {V : Type} (p : string * V -> bool) (l : list (string * V)) :
  NoDup (map fst l) -> NoDup (map fst (filter p l)).
Proof.
  induction l as [| e r IH]; simpl; auto.
  intros ND. inversion ND as [| ? ? Hn ND']; subst.
  destruct (p e); simpl; auto.
  constructor; auto. intros I. apply Hn.
  apply in_map_iff in I as [x [Hx Hi]]. apply filter_In in Hi as [Hi _].
  apply in_map_iff. eauto.
Qed.

(** The sort is ascending. *)
Lemma sort_insert_sorted (e : string * Z) (s : list (string * Z)) :
  StronglySorted le_count s -> StronglySorted le_count (sort_insert e s).
Proof.
  induction 1 as [| x r SS IH F]; simpl.
  - repeat constructor.
  - destruct (snd e <=? snd x) eqn:Le.
    + apply Z.leb_le in Le. constructor; [now constructor |].
      constructor; auto. eapply Forall_impl; [| exact F].
      unfold le_count. intros y Hy. lia.
    + apply Z.leb_gt in Le. constructor; auto.
      apply Forall_forall. intros y Hy.
      apply In_sort_insert in Hy as [-> | Hy].
      * unfold le_count. lia.
      * rewrite Forall_forall in F. auto.
Qed.

Lemma sort_by_count_sorted (l : list (string * Z)) :
  StronglySorted le_count (sort_by_count l).
Proof.
  induction l as [| e r IH]; simpl; [constructor | now apply sort_insert_sorted].
Qed.

(** The head of the sorted table is the entry of lowest count, the
    earliest among equals, and the tail is the sorted table without it. *)
Lemma sort_by_count_head (l : list (string * Z)) (e : string * Z) (r : list (string * Z)) :
  NoDup (map fst l) ->
  sort_by_count l = e :: r ->
  min_entry l = Some e /\ r = sort_by_count (JSMap.delete (fst e) l).
Proof.
  revert e r. induction l as [| a l' IH]; intros e r ND H; [discriminate |].
  inversion ND as [| ? ? Hn ND']; subst.
  cbn [sort_by_count] in H. cbn [min_entry].
  assert (Da : JSMap.delete (fst a) l' = l')
    by (apply MF.delete_absent, MF.get_None_not_In, Hn).
  destruct (sort_by_count l') as [| m r'] eqn:S.
  - apply sort_by_count_nil in S. subst l'. simpl in H. inversion H; subst.
    simpl. destruct e as [ka ca]. simpl. now rewrite String.eqb_refl.
  - destruct (IH m r' ND' eq_refl) as [Hm Hr]. rewrite Hm.
    simpl in H. destruct (snd a <=? snd m) eqn:Le; inversion H; subst.
    + apply Z.leb_le in Le.
      destruct (snd m <? snd e) eqn:Lt; [apply Z.ltb_lt in Lt; lia |].
      split; auto. destruct e as [ka ca]. simpl.
      rewrite String.eqb_refl. simpl in Da. rewrite Da. now rewrite S.
    + apply Z.leb_gt in Le.
      destruct (snd e <? snd a) eqn:Lt; [| apply Z.ltb_ge in Lt; lia].
      split; auto.
      assert (Ne : fst e <> fst a).
      { intros E. apply Hn. rewrite <- E. apply in_map.
        apply (Permutation_in _ (Permutation_sym (sort_by_count_perm l'))).
        rewrite S. now left. }
      destruct a as [ka ca]. simpl in *.
      destruct (String.eqb_spec (fst e) ka); [congruence |]. reflexivity.
Qed.

Lemma min_entry_lowest (l : list (string * Z)) (m : string * Z) :
  min_entry l = Some m ->
  In m l /\ forall e, In e l -> snd m <= snd e.
Proof.
  revert m. induction l as [| a r IH]; intros m H; [discriminate |].
  simpl in H. destruct (min_entry r) as [m' |] eqn:M.
  - destruct (IH m' eq_refl) as [I L].
    destruct (snd m' <? snd a) eqn:Lt; inversion H; subst.
    + apply Z.ltb_lt in Lt. split; [now right |].
      intros e [<- | Ie]; [lia | auto].
    + apply Z.ltb_ge in Lt. split; [now left |].
      intros e [<- | Ie]; [lia |]. specialize (L e Ie). lia.
  - inversion H; subst.
    destruct r as [| b r'].
    + split; [now left |]. intros e [<- | []]. lia.
    + simpl in M. destruct (min_entry r') as [m' |]; [| discriminate].
      destruct (snd m' <? snd b); discriminate.
Qed.

Lemma min_entry_earliest (l : list (string * Z)) (m : string * Z) :
  min_entry l = Some m ->
  exists l1 l2, l = l1 ++ m :: l2 /\ forall e, In e l1 -> snd m < snd e.
Proof.
  revert m. induction l as [| a r IH]; intros m H; [discriminate |].
  simpl in H. destruct (min_entry r) as [m' |] eqn:M.
  - destruct (IH m' eq_refl) as [l1 [l2 [E L]]].
    destruct (snd m' <? snd a) eqn:Lt; inversion H; subst.
    + apply Z.ltb_lt in Lt. exists (a :: l1), l2. split; auto.
      intros e [<- | Ie]; auto.
    + exists [], (l1 ++ m' :: l2). split; auto. intros e [].
  - inversion H; subst. exists [], r. split; auto. intros e [].
Qed.

Lemma sort_insert_head (e : string * Z) (s : list (string * Z)) :
  Forall (le_count e) s -> sort_insert e s = e :: s.
Proof.
  intros F. destruct s as [| x r]; simpl; auto.
  inversion F as [| ? ? Hx _]; subst. unfold le_count in Hx.
  apply Z.leb_le in Hx. now rewrite Hx.
Qed.

(** Sorting and then dropping entries is dropping them and then sorting:
    the sort is stable. *)
Lemma filter_sort_insert (p : string * Z -> bool) (e : string * Z) (s : list (string * Z)) :
  StronglySorted le_count s ->
  filter p (sort_insert e s) =
  if p e then sort_insert e (filter p s) else filter p s.
Proof.
  induction 1 as [| x r SS IH F]; simpl.
  - destruct (p e); reflexivity.
  - destruct (snd e <=? snd x) eqn:Le.
    + cbn [filter]. destruct (p e) eqn:Pe; auto.
      symmetry. apply sort_insert_head.
      apply Z.leb_le in Le.
      assert (Fx : Forall (le_count e) (x :: r)).
      { constructor; [exact Le |]. eapply Forall_impl; [| exact F].
        unfold le_count. intros y Hy. lia. }
      apply Forall_forall. intros y Hy.
      rewrite Forall_forall in Fx. apply Fx.
      change (In y (filter p (x :: r))) in Hy. now apply filter_In in Hy.
    + cbn [filter]. rewrite IH.
      destruct (p x), (p e); simpl; rewrite ?Le; reflexivity.
Qed.

Lemma filter_sort_by_count (p : string * Z -> bool) (l : list (string * Z)) :
  filter p (sort_by_count l) = sort_by_count (filter p l).
Proof.
  induction l as [| e r IH]; simpl; auto.
  rewrite filter_sort_insert by apply sort_by_count_sorted.
  rewrite IH. destruct (p e); reflexivity.
Qed.

(** ** C6: the loop of [#free] evicts least-frequently-used entries *)

Lemma length_delete_present {V : Type} (k : string) (v : V) (m : JSMap.t V) :
  JSMap.get k m = Some v -> (S (List.length (JSMap.delete k m)) <= List.length m)%nat.
Proof.
  induction m as [| [k0 v0] r IH]; simpl; [discriminate |].
  assert (L : forall m' : JSMap.t V, (List.length (JSMap.delete k m') <= List.length m')%nat).
  { induction m' as [| [k1 v1] r' IH']; simpl; auto.
    destruct (String.eqb k k1); simpl; lia. }
  destruct (String.eqb k k0).
  - intros _. specialize (L r). lia.
  - intros G. specialize (IH G). simpl. lia.
Qed.

Lemma delete_filter_agree {V : Type} (p q : string * V -> bool) (k : string)
    (l : list (string * V)) :
  (forall e, In e l -> fst e <> k -> p e = q e) ->
  JSMap.delete k (filter p l) = JSMap.delete k (filter q l).
Proof.
  induction l as [| [k0 v0] r IH]; simpl; intros H; auto.
  destruct (String.eqb_spec k k0) as [-> | N].
  - destruct (p (k0, v0)), (q (k0, v0)); simpl;
      rewrite ?String.eqb_refl; apply IH; auto.
  - rewrite (H (k0, v0)) by (simpl; auto).
    destruct (q (k0, v0)); simpl.
    + destruct (String.eqb_spec k k0); [congruence |]. f_equal. apply IH; auto.
    + apply IH; auto.
Qed.

(** The stored frequency records after a [delete] that removed [k]. *)
Lemma stored_counts_delete (k : string) (c : Cache) :
  stored k c = true ->
  stored_counts (fst (delete (Some (JString k)) c)) =
  JSMap.delete k (stored_counts c).
Proof.
  unfold stored, stored_counts, JSMap.entries. intros S.
  apply MF.has_true_iff in S as [v G]. simpl. rewrite G. simpl.
  rewrite MF.filter_keys_delete. apply delete_filter_agree.
  intros e _ N. unfold JSMap.has. rewrite MF.get_delete_other; auto.
Qed.

Lemma free_loop_evict_lfu (neededSize : Z) (l : list (string * Z)) :
  forall (c : Cache) (fuel : nat),
    wf c ->
    filter (fun e => stored (fst e) c) l = sort_by_count (stored_counts c) ->
    (List.length (p_data c) <= fuel)%nat ->
    free_loop neededSize l c = evict_lfu fuel neededSize c.
Proof.
  induction l as [| e r IH]; intros c fuel W F Len.
  - simpl in F. symmetry in F. apply sort_by_count_nil in F.
    destruct fuel; simpl; auto. rewrite F. simpl.
    destruct (hasCapacity neededSize c); reflexivity.
  - cbn [free_loop].
    destruct (hasCapacity neededSize c) eqn:Cap.
    { destruct fuel; simpl; rewrite ?Cap; reflexivity. }
    cbn [filter] in F.
    destruct (stored (fst e) c) eqn:St.
    + symmetry in F.
      assert (ND : NoDup (map fst (stored_counts c))).
      { unfold stored_counts. apply NoDup_keys_filter, (wf_count_keys c W). }
      destruct (sort_by_count_head _ _ _ ND F) as [Hm Hr].
      pose proof St as St'. unfold stored in St'.
      apply MF.has_true_iff in St' as [v G].
      pose proof (length_delete_present _ _ _ G) as Ld.
      destruct fuel as [| fuel']; [lia |].
      cbn [evict_lfu]. rewrite Cap, Hm.
      apply IH.
      * now apply delete_wf.
      * rewrite stored_counts_delete by auto. rewrite <- Hr.
        apply filter_ext_in. intros x Hx. unfold stored. simpl. rewrite G. simpl.
        destruct (String.eqb_spec (fst e) (fst x)) as [E | N].
        -- exfalso.
           apply NoDup_keys_sort in ND. rewrite F in ND. simpl in ND.
           inversion ND as [| ? ? Hn _]; subst. apply Hn.
           rewrite E. apply in_map, filter_In. split; auto.
           unfold stored, JSMap.has. rewrite <- E, G. reflexivity.
        -- unfold JSMap.has. now rewrite MF.get_delete_other.
      * simpl. rewrite G. simpl. lia.
    + unfold stored in St. apply MF.has_false_iff in St.
      simpl. rewrite St. simpl. apply IH; auto.
Qed.

Lemma free_is_evict_lfu (neededSize : Z) (c : Cache) :
  wf c ->
  free neededSize c = evict_lfu (List.length (p_data c)) neededSize c.
Proof.
  intros W. unfold free. destruct (hasCapacity neededSize c) eqn:Cap.
  - destruct (List.length (p_data c)); simpl; rewrite ?Cap; reflexivity.
  - apply free_loop_evict_lfu; auto.
    unfold JSMap.entries. rewrite filter_sort_by_count. reflexivity.
Qed.

Lemma free_stops (neededSize : Z) (c : Cache) :
  wf c ->
  hasCapacity neededSize (free neededSize c) = true
  \/ keys (free neededSize c) = [].
Proof.
  intros W. unfold free. destruct (hasCapacity neededSize c) eqn:Cap; auto.
  destruct (free_loop_stops neededSize
              (sort_by_count (JSMap.entries (p_accessCount c))) c W) as [H | H]; auto.
  - intros k Hk. apply (wf_counted c W), MF.has_In_keys in Hk.
    unfold JSMap.keys in Hk. apply in_map_iff in Hk as [x [Hx Hi]].
    apply in_map_iff. exists x. split; auto. now apply In_sort_by_count.
  - right. unfold keys. now rewrite H.
Qed.

(** C6.  On every cache a program can hold, [#free] is the eviction of
    the specification: while the value does not fit and an entry remains,
    it deletes the stored entry of lowest frequency counter, the earliest
    one in the frequency table among entries of equal frequency
    ([min_entry], see [min_entry_lowest] and [min_entry_earliest]); it
    stops with room for the value or with no entry left.  A [set] of a
    value that fits removes the key, evicts in this way until the value
    fits, and then stores the entry.  The result is a function of the
    cache, so equal histories evict alike. *)
Theorem free_evicts_lfu (c : Cache) :
  reachable c ->
  (forall neededSize,
      free neededSize c = evict_lfu (List.length (p_data c)) neededSize c
      /\ (hasCapacity neededSize (free neededSize c) = true
          \/ keys (free neededSize c) = []))
  /\ (forall k v,
        byteLength v <= p_maxSize c ->
        let c1 := fst (delete (Some (JString k)) c) in
        let c2 := evict_lfu (List.length (p_data c1)) (byteLength v) c1 in
        hasCapacity (byteLength v) c2 = true
        /\ fst (set (Some (JString k)) (Some (JBuffer v)) c) =
           mkCache (p_maxSize c2)
                   (p_size c2 + byteLength v)
                   (JSMap.set k v (p_data c2))
                   (JSMap.set k (match JSMap.get k (p_accessCount c) with
                                 | Some n => n
                                 | None => 0
                                 end) (p_accessCount c2))).
Proof.
  intros R. pose proof (reachable_wf c R) as W. split.
  - intros neededSize. split; [now apply free_is_evict_lfu | now apply free_stops].
  - intros k v H c1 c2.
    assert (W1 : wf c1) by now apply delete_wf.
    assert (E : c2 = free (byteLength v) c1)
      by (symmetry; now apply free_is_evict_lfu).
    split.
    + rewrite E. apply free_makes_room; auto.
      unfold c1. rewrite delete_maxSize. exact H.
    + unfold set. apply Z.ltb_ge in H. rewrite H. cbn [fst].
      fold c1. rewrite <- E. reflexivity.
Qed.

(** ** C5, C7: values that fit and values that do not *)

Lemma set_too_large (k : string) (v : Buffer) (c : Cache) :
  p_maxSize c < byteLength v ->
  set (Some (JString k)) (Some (JBuffer v)) c = (c, Normal tt).
Proof.
  intros H. unfold set. apply Z.ltb_lt in H. now rewrite H.
Qed.

(** C5.  A value longer than [maxSize] makes [set] return normally with
    the cache exactly as it was: every entry, value, frequency record and
    the size are unchanged, also when the key is already stored. *)
Theorem set_oversized_noop (k : string) (v : Buffer) (c : Cache) :
  p_maxSize c < byteLength v ->
  set (Some (JString k)) (Some (JBuffer v)) c = (c, Normal tt).
Proof. apply set_too_large. Qed.

Lemma set_stores (k : string) (v : Buffer) (c : Cache) :
  byteLength v <= p_maxSize c ->
  JSMap.get k (p_data (fst (set (Some (JString k)) (Some (JBuffer v)) c))) = Some v
  /\ JSMap.get k (p_accessCount (fst (set (Some (JString k)) (Some (JBuffer v)) c))) =
     Some (match JSMap.get k (p_accessCount c) with Some n => n | None => 0 end).
Proof.
  intros H. unfold set. apply Z.ltb_ge in H. rewrite H. cbn [fst p_data p_accessCount].
  split; apply MF.get_set_same.
Qed.

(** C7.  A value that fits is returned by a [get] right after its [set];
    a value that does not fit, set under a key that was not stored, leaves
    the [get] returning [undefined]. *)
Theorem set_then_get (k : string) (v : Buffer) (c : Cache) :
  (byteLength v <= p_maxSize c ->
   snd (get (Some (JString k)) (fst (set (Some (JString k)) (Some (JBuffer v)) c)))
   = Normal (Some v))
  /\ (p_maxSize c < byteLength v -> stored k c = false ->
      snd (get (Some (JString k)) (fst (set (Some (JString k)) (Some (JBuffer v)) c)))
      = Normal None).
Proof.
  split.
  - intros H. destruct (set_stores k v c H) as [D A].
    unfold get. rewrite D, A. reflexivity.
  - intros H S. rewrite set_too_large by auto. cbn [fst].
    unfold stored in S. apply MF.has_false_iff in S.
    unfold get. rewrite S. reflexivity.
Qed.

(** ** C8: reading *)

(** C8.  On every cache a program can hold, [get] of a key that is not
    stored returns [undefined] and changes nothing; [get] of a stored key
    returns its value and adds exactly one to its frequency counter,
    leaving the stored entries (none is evicted), the size, the capacity
    and the frequency of every other key as they were. *)
Theorem get_counts_one_read (k : string) (c : Cache) :
  reachable c ->
  match JSMap.get k (p_data c) with
  | None => get (Some (JString k)) c = (c, Normal None)
  | Some v =>
      exists n,
        frequency k c = Some n
        /\ snd (get (Some (JString k)) c) = Normal (Some v)
        /\ frequency k (fst (get (Some (JString k)) c)) = Some (n + 1)
        /\ p_data (fst (get (Some (JString k)) c)) = p_data c
        /\ size (fst (get (Some (JString k)) c)) = size c
        /\ maxSize (fst (get (Some (JString k)) c)) = maxSize c
        /\ forall k', k' <> k ->
             frequency k' (fst (get (Some (JString k)) c)) = frequency k' c
  end.
Proof.
  intros R. unfold get.
  destruct (JSMap.get k (p_data c)) as [v |] eqn:G; auto.
  assert (S : stored k c = true) by (unfold stored, JSMap.has; now rewrite G).
  destruct (stored_keys_counted c k R S) as [n A].
  exists n. rewrite A. cbn [fst snd].
  unfold frequency, size, maxSize. cbn [p_data p_size p_maxSize p_accessCount].
  unfold stored in S. rewrite S.
  repeat split; auto.
  - apply MF.get_set_same.
  - intros k' N. destruct (JSMap.has k' (p_data c)); auto.
    apply MF.get_set_other. congruence.
Qed.

(** ** C9: arguments of the wrong type *)

(** C9.  A capacity that is given and is not an integer, or is negative,
    makes the constructor throw a [TypeError]; a key that is not a string
    makes [get], [set], [has], [delete] and [rename] (either key) throw a
    [TypeError]; a value that is not a [Buffer] makes [set] throw a
    [TypeError].  In each case the cache is left exactly as it was. *)
Theorem wrong_type_throws :
  (forall v, (forall z, v <> JInt z) ->
     exists msg, constructor (Some v) = Throw (TypeError msg))
  /\ (forall z, z < 0 ->
        exists msg, constructor (Some (JInt z)) = Throw (TypeError msg))
  /\ (forall key c, is_string key = false ->
        (exists msg, get key c = (c, Throw (TypeError msg)))
        /\ (forall value, exists msg, set key value c = (c, Throw (TypeError msg)))
        /\ (exists msg, has key c = (c, Throw (TypeError msg)))
        /\ (exists msg, delete key c = (c, Throw (TypeError msg)))
        /\ (forall other, exists msg, rename key other c = (c, Throw (TypeError msg)))
        /\ (forall other, exists msg, rename other key c = (c, Throw (TypeError msg))))
  /\ (forall key value c, is_buffer value = false ->
        exists msg, set key value c = (c, Throw (TypeError msg))).
Proof.
  split; [| split; [| split]].
  - intros v H.
    destruct v as [s | b | z | | | b |]; try (eexists; reflexivity).
    destruct (H z eq_refl).
  - intros z H. unfold constructor.
    apply Z.ltb_lt in H. rewrite H, orb_true_r. eauto.
  - intros key c H.
    destruct key as [[] |]; try discriminate;
      (repeat split; [| intros value | | | intros other | intros other];
       try (destruct other as [[] |]); simpl; eauto).
  - intros key value c H.
    destruct value as [[] |]; try discriminate;
      destruct key as [[] |]; simpl; eauto.
Qed.

(** An argument left out takes the default capacity 0. *)
Lemma constructor_default :
  constructor None = Normal (mkCache 0 0 [] []).
Proof. reflexivity. Qed.

(** Every non-negative safe integer is accepted. *)
Lemma constructor_accepts (z : Z) :
  0 <= z <= MAX_SAFE_INTEGER ->
  constructor (Some (JInt z)) = Normal (mkCache z 0 [] []).
Proof.
  intros [L U]. unfold constructor, isSafeInteger.
  rewrite Z.abs_eq by auto.
  apply Z.leb_le in U. rewrite U.
  destruct (z <? 0) eqn:N; [apply Z.ltb_lt in N; lia | reflexivity].
Qed.

(** ** C10: the order of [keys()] *)

(** C10.  After a [set] that stores its value, the key is the last of
    [keys()], also when it was stored before (it leaves its old place);
    the keys before it are the earlier keys that are still stored, in
    their earlier order.  After a [rename] that returns [true], the new
    key is the last of [keys()] and the other keys keep their order. *)
Theorem keys_most_recent_last :
  (forall k v c,
      byteLength v <= p_maxSize c ->
      keys (fst (set (Some (JString k)) (Some (JBuffer v)) c)) =
      filter (fun x => stored x (fst (set (Some (JString k)) (Some (JBuffer v)) c))
                       && negb (String.eqb k x)) (keys c) ++ [k])
  /\ (forall o n c,
        snd (rename (Some (JString o)) (Some (JString n)) c) = Normal true ->
        keys (fst (rename (Some (JString o)) (Some (JString n)) c)) =
        filter (fun x => negb (String.eqb o x)) (keys c) ++ [n]).
Proof.
  split.
  - intros k v c H. unfold set. apply Z.ltb_ge in H. rewrite H. cbn [fst].
    set (c1 := fst (delete (Some (JString k)) c)).
    set (c2 := free (byteLength v) c1).
    assert (Fresh : JSMap.get k (p_data c2) = None)
      by apply free_absent, delete_absent_after.
    unfold keys at 1. cbn [p_data].
    rewrite MF.set_fresh by auto.
    unfold JSMap.keys. rewrite map_app. cbn [map fst]. f_equal.
    change (map fst (p_data c2)) with (keys c2).
    unfold c2 at 1. rewrite free_keys. fold c2.
    unfold c1 at 1. rewrite delete_keys. fold c1.
    rewrite filter_filter_sub.
    + apply filter_ext_in. intros x Hx. unfold stored. cbn [p_data].
      unfold JSMap.has.
      destruct (String.eqb_spec k x) as [<- | N].
      * rewrite Fresh. now rewrite andb_false_r.
      * rewrite <- (MF.set_fresh k v (p_data c2) Fresh).
        rewrite MF.get_set_other by auto. now rewrite andb_true_r.
    + intros x _ Hx. apply MF.has_In_keys in Hx.
      change (In x (keys c2)) in Hx. unfold c2 in Hx.
      rewrite free_keys in Hx. apply filter_In in Hx as [Hx _].
      now apply MF.has_In_keys.
  - intros o n c. unfold rename.
    destruct (JSMap.get o (p_data c)) as [v |] eqn:G; [| discriminate].
    destruct (JSMap.has n (p_data c)) eqn:Hn; [discriminate |].
    intros _. apply MF.has_false_iff in Hn.
    assert (N : o <> n) by congruence.
    unfold keys. cbn [fst p_data].
    rewrite MF.keys_delete, MF.set_fresh by auto.
    unfold JSMap.keys. rewrite map_app, filter_app. cbn [map fst filter].
    destruct (String.eqb_spec o n); [congruence | reflexivity].
Qed.

(** ** C2: capacity 0 *)

Lemma set_maxSize (key value : option jsval) (c : Cache) :
  p_maxSize (fst (set key value c)) = p_maxSize c.
Proof.
  unfold set.
  destruct key as [[k | | | | | |] |]; auto.
  destruct value as [[| v | | | | |] |]; auto.
  destruct (p_maxSize c <? byteLength v); auto.
  cbn [fst p_maxSize]. now rewrite free_maxSize, delete_maxSize.
Qed.

Lemma step_maxSize (o : call) (c : Cache) : p_maxSize (step o c) = p_maxSize c.
Proof.
  destruct o; simpl; auto using set_maxSize, delete_maxSize;
    unfold get, rename, has.
  - destruct key as [[k | | | | | |] |]; auto.
    destruct (JSMap.get k (p_data c)); auto.
    destruct (JSMap.get k (p_accessCount c)); auto.
  - destruct oldKey as [[o | | | | | |] |]; auto.
    destruct newKey as [[n | | | | | |] |]; auto.
    destruct (JSMap.get o (p_data c)); auto.
    destruct (JSMap.has n (p_data c)); auto.
  - destruct key as [[k | | | | | |] |]; auto.
Qed.

Lemma run_maxSize (ops : list call) (c : Cache) :
  p_maxSize (run ops c) = p_maxSize c.
Proof.
  revert c. induction ops as [| o r IH]; intros c; simpl; auto.
  unfold run in IH. now rewrite IH, step_maxSize.
Qed.

Lemma run_wf (ops : list call) (c : Cache) : wf c -> wf (run ops c).
Proof.
  revert c. induction ops as [| o r IH]; intros c W; simpl; auto.
  apply IH, step_wf, W.
Qed.

Lemma step_stays_empty (o : call) (c : Cache) :
  p_maxSize c = 0 -> p_data c = [] ->
  match o with CallSet _ (Some (JBuffer [])) => False | _ => True end ->
  p_data (step o c) = [].
Proof.
  intros M D Ho. destruct o; simpl; auto; unfold get, rename, has, delete.
  - destruct key as [[k | | | | | |] |]; auto. now rewrite D.
  - unfold set.
    destruct key as [[k | | | | | |] |]; auto.
    destruct value as [[| v | | | | |] |]; auto.
    destruct v as [| b v]; [contradiction |].
    rewrite M. unfold byteLength. cbn [List.length].
    destruct (0 <? Z.of_nat (S (List.length v))) eqn:E; auto.
    apply Z.ltb_ge in E. lia.
  - destruct oldKey as [[o | | | | | |] |]; auto.
    destruct newKey as [[n | | | | | |] |]; auto. now rewrite D.
  - destruct key as [[k | | | | | |] |]; auto.
  - destruct key as [[k | | | | | |] |]; auto. now rewrite D.
Qed.

Lemma trace_stays_empty (ops : list call) (c : Cache) :
  p_maxSize c = 0 -> p_data c = [] -> sets_nonempty ops ->
  Forall (fun c' => keys c' = []) (trace ops c).
Proof.
  revert c. induction ops as [| o r IH]; intros c M D S; simpl; constructor;
    inversion S; subst.
  - unfold keys. now rewrite step_stays_empty.
  - apply IH; auto.
    + now rewrite step_maxSize.
    + now apply step_stays_empty.
Qed.

(** What a cache built with capacity 0 does.  After any sequence of
    calls, a [set] of a [Buffer] that is not empty returns normally and
    leaves the cache exactly as it was; as long as no zero-length [Buffer]
    is passed to [set], no entry is held after any call; the size is 0
    after every sequence of calls; and a [set] of a zero-length [Buffer]
    passes the size guard (0 bytes are not more than 0 bytes): the key is
    stored and the size stays 0. *)
Theorem capacity_zero (arg : option jsval) (c0 : Cache) :
  constructor arg = Normal c0 ->
  maxSize c0 = 0 ->
  (forall ops k v,
      v <> [] ->
      set (Some (JString k)) (Some (JBuffer v)) (run ops c0)
      = (run ops c0, Normal tt))
  /\ (forall ops, sets_nonempty ops -> Forall (fun c => keys c = []) (trace ops c0))
  /\ (forall ops k,
        size (run ops c0) = 0
        /\ stored k (fst (set (Some (JString k)) (Some (JBuffer [])) (run ops c0))) = true
        /\ size (fst (set (Some (JString k)) (Some (JBuffer [])) (run ops c0))) = 0).
Proof.
  intros H M. unfold maxSize in M.
  assert (W0 : wf c0) by (eapply constructor_wf; eauto).
  assert (D0 : p_data c0 = []).
  { unfold constructor in H.
    destruct (match arg with Some v => v | None => JInt 0 end); try discriminate.
    destruct (negb (isSafeInteger (JInt z)) || (z <? 0)); try discriminate.
    now inversion H. }
  assert (Z0 : forall c, wf c -> p_maxSize c = 0 -> p_size c = 0).
  { intros c [_ _ _ Ws Wf] Mc. pose proof (total_bytes_nonneg (p_data c)). lia. }
  split; [| split].
  - intros ops k v Hv. apply set_too_large.
    rewrite run_maxSize, M. unfold byteLength.
    destruct v as [| b v']; [congruence |]. cbn [List.length]. lia.
  - intros ops S. now apply trace_stays_empty.
  - intros ops k.
    pose proof (run_wf ops c0 W0) as W.
    pose proof (run_maxSize ops c0) as Mr. rewrite M in Mr.
    set (c := run ops c0) in *.
    split; [| split].
    + unfold size. now apply Z0.
    + unfold stored, JSMap.has, set. rewrite Mr. simpl.
      now rewrite MF.get_set_same.
    + unfold size. apply Z0.
      * now apply set_wf.
      * now rewrite set_maxSize.
Qed.

(** C2, on the code.  The constructor documents a cache of capacity 0 as
    disabled, yet a [set] of a zero-length [Buffer] on a new cache of
    capacity 0 stores its key: [keys()] is [["k"]] and [has] returns
    [true], so the cache holds an entry. *)
Lemma capacity_zero_stores_empty_buffer :
  constructor (num 0) = Normal (cache_of_capacity 0)
  /\ keys (fst (set (str "k") (buf []) (cache_of_capacity 0))) = ["k"]
  /\ snd (has (str "k") (fst (set (str "k") (buf []) (cache_of_capacity 0))))
     = Normal true.
Proof. repeat split. Qed.

(** ** C3, C4: [rename] and the frequency records *)

(** What [rename] does on every cache a program can hold.  It returns
    [false] and changes nothing when the old key is not stored or the new
    key is; otherwise it returns [true], the value and the frequency
    counter are found under the new key, the old key is no longer stored
    and the size is unchanged.  The frequency record of the old key is
    not removed from the frequency table. *)
Lemma rename_moves_entry (o n : string) (c : Cache) :
  reachable c ->
  (stored o c = false \/ stored n c = true ->
   rename (Some (JString o)) (Some (JString n)) c = (c, Normal false))
  /\ (stored o c = true -> stored n c = false ->
      snd (rename (Some (JString o)) (Some (JString n)) c) = Normal true
      /\ JSMap.get n (p_data (fst (rename (Some (JString o)) (Some (JString n)) c)))
         = JSMap.get o (p_data c)
      /\ frequency n (fst (rename (Some (JString o)) (Some (JString n)) c))
         = frequency o c
      /\ stored o (fst (rename (Some (JString o)) (Some (JString n)) c)) = false
      /\ size (fst (rename (Some (JString o)) (Some (JString n)) c)) = size c
      /\ JSMap.get o (p_accessCount (fst (rename (Some (JString o)) (Some (JString n)) c)))
         = JSMap.get o (p_accessCount c)).
Proof.
  intros R. unfold stored, rename. split.
  - intros [H | H].
    + apply MF.has_false_iff in H. now rewrite H.
    + rewrite H. destruct (JSMap.get o (p_data c)); reflexivity.
  - intros So Sn.
    destruct (stored_keys_counted c o R So) as [cnt A].
    pose proof So as So'. apply MF.has_true_iff in So' as [v G].
    rewrite G, Sn, A. cbn [fst snd].
    unfold frequency, size. cbn [p_data p_size p_accessCount].
    pose proof Sn as Gn. apply MF.has_false_iff in Gn.
    assert (N : n <> o) by congruence.
    assert (Dn : JSMap.get n (JSMap.delete o (JSMap.set n v (p_data c))) = Some v).
    { rewrite MF.get_delete_other by congruence. apply MF.get_set_same. }
    repeat split.
    + exact Dn.
    + rewrite So, A. unfold JSMap.has. rewrite Dn. apply MF.get_set_same.
    + apply MF.has_false_iff, MF.get_delete_same.
    + now rewrite MF.get_set_other.
Qed.

(** C3, on the code.  After the history [history_rename] the renamed key
    ["a"] is no longer stored, but its frequency record (count 2) is
    still in the frequency table: ["a"] does not behave as a new key.  Set
    again it takes the count 2, so the next eviction removes ["x"] (read
    once) and not the newly set ["a"]. *)
Theorem rename_keeps_old_frequency_record :
  constructor (num 3) = Normal (cache_of_capacity 3)
  /\ snd (rename (str "a") (str "b")
            (run (removelast history_rename) (cache_of_capacity 3))) = Normal true
  /\ stored "a" (run history_rename (cache_of_capacity 3)) = false
  /\ JSMap.get "a" (p_accessCount (run history_rename (cache_of_capacity 3))) = Some 2
  /\ keys (run (history_rename ++ [CallSet (str "a") (buf one_byte)])
              (cache_of_capacity 3)) = ["x"; "b"; "a"]
  /\ keys (run (history_rename ++ [CallSet (str "a") (buf one_byte);
                                   CallSet (str "c") (buf one_byte)])
              (cache_of_capacity 3)) = ["b"; "a"; "c"].
Proof. repeat split. Qed.

(** The frequency counter of an entry that [set] stores is the count
    recorded for the key in the frequency table, or 0 when there is no
    record; for a key that is stored it is the counter of the entry that
    is replaced. *)
Lemma set_frequency_from_record (k : string) (v : Buffer) (c : Cache) :
  byteLength v <= p_maxSize c ->
  frequency k (fst (set (Some (JString k)) (Some (JBuffer v)) c)) =
  Some (match JSMap.get k (p_accessCount c) with Some n => n | None => 0 end).
Proof.
  intros H. destruct (set_stores k v c H) as [D A].
  unfold frequency, JSMap.has. now rewrite D, A.
Qed.

Lemma set_retains_frequency (k : string) (v : Buffer) (c : Cache) :
  reachable c -> byteLength v <= p_maxSize c -> stored k c = true ->
  frequency k (fst (set (Some (JString k)) (Some (JBuffer v)) c)) = frequency k c.
Proof.
  intros R H S. rewrite set_frequency_from_record by auto.
  destruct (stored_keys_counted c k R S) as [n A].
  unfold frequency. unfold stored in S. now rewrite S, A.
Qed.

(** C4, on the code.  After the history [history_rename] the key ["a"] is
    not stored; a [set] of ["a"] with a value that fits stores an entry
    whose frequency counter is 2, not 0. *)
Theorem set_absent_key_takes_old_count :
  constructor (num 3) = Normal (cache_of_capacity 3)
  /\ stored "a" (run history_rename (cache_of_capacity 3)) = false
  /\ byteLength one_byte <= maxSize (run history_rename (cache_of_capacity 3))
  /\ frequency "a" (fst (set (str "a") (buf one_byte)
                           (run history_rename (cache_of_capacity 3)))) = Some 2.
Proof. repeat split. discriminate. Qed.

(** ** The theorems at concrete caches *)

Lemma size_invariant_witness :
  constructor (num 3) = Normal (cache_of_capacity 3)
  /\ Forall (fun c => size c = total_bytes (p_data c) /\ size c <= maxSize c)
            (cache_of_capacity 3 :: trace history_rename (cache_of_capacity 3)).
Proof.
  split; [reflexivity |].
  apply (size_invariant (num 3) (cache_of_capacity 3) history_rename).
  reflexivity.
Defined.

Lemma capacity_zero_witness :
  constructor (num 0) = Normal (cache_of_capacity 0)
  /\ maxSize (cache_of_capacity 0) = 0
  /\ (forall ops k v,
        v <> [] ->
        set (Some (JString k)) (Some (JBuffer v)) (run ops (cache_of_capacity 0))
        = (run ops (cache_of_capacity 0), Normal tt))
  /\ (forall ops, sets_nonempty ops ->
        Forall (fun c => keys c = []) (trace ops (cache_of_capacity 0)))
  /\ (forall ops k,
        size (run ops (cache_of_capacity 0)) = 0
        /\ stored k (fst (set (Some (JString k)) (Some (JBuffer []))
                            (run ops (cache_of_capacity 0)))) = true
        /\ size (fst (set (Some (JString k)) (Some (JBuffer []))
                        (run ops (cache_of_capacity 0)))) = 0).
Proof.
  split; [reflexivity |]. split; [reflexivity |].
  apply (capacity_zero (num 0) (cache_of_capacity 0)); reflexivity.
Defined.

Lemma set_oversized_noop_witness :
  p_maxSize (cache_of_capacity 1) < byteLength [x00; x01]
  /\ set (Some (JString "k")) (Some (JBuffer [x00; x01])) (cache_of_capacity 1)
     = (cache_of_capacity 1, Normal tt).
Proof.
  split; [reflexivity |].
  apply (set_oversized_noop "k" [x00; x01] (cache_of_capacity 1)). reflexivity.
Defined.

Lemma history_rename_reachable :
  reachable (run history_rename (cache_of_capacity 3)).
Proof.
  apply run_reachable, (reach_new (num 3)). reflexivity.
Defined.

Lemma free_evicts_lfu_witness :
  reachable (run history_rename (cache_of_capacity 3))
  /\ free 2 (run history_rename (cache_of_capacity 3))
     = evict_lfu (List.length (p_data (run history_rename (cache_of_capacity 3)))) 2
                 (run history_rename (cache_of_capacity 3))
  /\ keys (free 2 (run history_rename (cache_of_capacity 3))) = ["b"].
Proof.
  split; [exact history_rename_reachable |].
  split; [| reflexivity].
  apply (proj1 (free_evicts_lfu (run history_rename (cache_of_capacity 3))
                  history_rename_reachable) 2).
Defined.

Lemma set_then_get_witness :
  (byteLength one_byte <= p_maxSize (cache_of_capacity 1)
   /\ snd (get (Some (JString "k"))
             (fst (set (Some (JString "k")) (Some (JBuffer one_byte))
                       (cache_of_capacity 1)))) = Normal (Some one_byte))
  /\ (p_maxSize (cache_of_capacity 1) < byteLength [x00; x01]
      /\ stored "k" (cache_of_capacity 1) = false
      /\ snd (get (Some (JString "k"))
                (fst (set (Some (JString "k")) (Some (JBuffer [x00; x01]))
                          (cache_of_capacity 1)))) = Normal None).
Proof.
  split.
  - split; [discriminate |].
    apply (proj1 (set_then_get "k" one_byte (cache_of_capacity 1))). discriminate.
  - split; [reflexivity |]. split; [reflexivity |].
    apply (proj2 (set_then_get "k" [x00; x01] (cache_of_capacity 1))); reflexivity.
Defined.

Lemma get_counts_one_read_witness :
  reachable (run history_rename (cache_of_capacity 3))
  /\ match JSMap.get "b" (p_data (run history_rename (cache_of_capacity 3))) with
     | None => get (Some (JString "b")) (run history_rename (cache_of_capacity 3))
               = (run history_rename (cache_of_capacity 3), Normal None)
     | Some v =>
         exists n,
           frequency "b" (run history_rename (cache_of_capacity 3)) = Some n
           /\ snd (get (Some (JString "b")) (run history_rename (cache_of_capacity 3)))
              = Normal (Some v)
           /\ frequency "b" (fst (get (Some (JString "b"))
                                    (run history_rename (cache_of_capacity 3))))
              = Some (n + 1)
           /\ p_data (fst (get (Some (JString "b"))
                             (run history_rename (cache_of_capacity 3))))
              = p_data (run history_rename (cache_of_capacity 3))
           /\ size (fst (get (Some (JString "b"))
                           (run history_rename (cache_of_capacity 3))))
              = size (run history_rename (cache_of_capacity 3))
           /\ maxSize (fst (get (Some (JString "b"))
                              (run history_rename (cache_of_capacity 3))))
              = maxSize (run history_rename (cache_of_capacity 3))
           /\ forall k', k' <> "b" ->
                frequency k' (fst (get (Some (JString "b"))
                                     (run history_rename (cache_of_capacity 3))))
                = frequency k' (run history_rename (cache_of_capacity 3))
     end.
Proof.
  split; [exact history_rename_reachable |].
  apply (get_counts_one_read "b" (run history_rename (cache_of_capacity 3))).
  exact history_rename_reachable.
Defined.

Lemma wrong_type_throws_witness :
  (exists msg, constructor (Some JNonInt) = Throw (TypeError msg))
  /\ (exists msg, constructor (Some (JInt (-1))) = Throw (TypeError msg))
  /\ (exists msg, get (Some (JInt 123)) (cache_of_capacity 3)
                  = (cache_of_capacity 3, Throw (TypeError msg)))
  /\ (exists msg, set (Some (JString "k")) (Some (JString "notBytes"))
                      (cache_of_capacity 3)
                  = (cache_of_capacity 3, Throw (TypeError msg))).
Proof.
  destruct wrong_type_throws as [A [B [C D]]].
  split; [apply A; discriminate |].
  split; [apply B; reflexivity |].
  split; [apply (C (Some (JInt 123))); reflexivity |].
  apply D; reflexivity.
Defined.

Lemma keys_most_recent_last_witness :
  (byteLength one_byte <= p_maxSize (run history_rename (cache_of_capacity 3))
   /\ keys (fst (set (Some (JString "x")) (Some (JBuffer one_byte))
                     (run history_rename (cache_of_capacity 3)))) = ["b"; "x"])
  /\ (snd (rename (Some (JString "x")) (Some (JString "y"))
             (run history_rename (cache_of_capacity 3))) = Normal true
      /\ keys (fst (rename (Some (JString "x")) (Some (JString "y"))
                      (run history_rename (cache_of_capacity 3)))) = ["b"; "y"]).
Proof.
  split.
  - split; [discriminate |].
    rewrite (proj1 keys_most_recent_last "x" one_byte
               (run history_rename (cache_of_capacity 3))) by discriminate.
    reflexivity.
  - split; [reflexivity |].
    rewrite (proj2 keys_most_recent_last "x" "y"
               (run history_rename (cache_of_capacity 3))) by reflexivity.
    reflexivity.
Defined.


(** * Further properties of the class *)

(** ** [delete] *)

(** [delete] of a key that is not stored returns [false] and changes
    nothing.  [delete] of a stored key returns [true]; afterwards the key
    is not stored and has no frequency record, the size has gone down by
    the byte length of its value, the other keys keep their order, and
    every other entry keeps its value and its frequency counter. *)
Theorem delete_removes_one_entry (k : string) (c : Cache) :
  match JSMap.get k (p_data c) with
  | None => delete (Some (JString k)) c = (c, Normal false)
  | Some v =>
      snd (delete (Some (JString k)) c) = Normal true
      /\ stored k (fst (delete (Some (JString k)) c)) = false
      /\ JSMap.get k (p_accessCount (fst (delete (Some (JString k)) c))) = None
      /\ size (fst (delete (Some (JString k)) c)) = size c - byteLength v
      /\ maxSize (fst (delete (Some (JString k)) c)) = maxSize c
      /\ keys (fst (delete (Some (JString k)) c))
         = filter (fun x => negb (String.eqb k x)) (keys c)
      /\ forall k', k' <> k ->
           JSMap.get k' (p_data (fst (delete (Some (JString k)) c)))
           = JSMap.get k' (p_data c)
           /\ frequency k' (fst (delete (Some (JString k)) c)) = frequency k' c
  end.
Proof.
  unfold delete. destruct (JSMap.get k (p_data c)) as [v |] eqn:G; auto.
  cbn [fst snd]. unfold stored, frequency, size, maxSize, keys.
  cbn [p_data p_size p_maxSize p_accessCount].
  split; [reflexivity |].
  split; [apply MF.has_false_iff, MF.get_delete_same |].
  split; [apply MF.get_delete_same |].
  split; [reflexivity |].
  split; [reflexivity |].
  split; [apply MF.keys_delete |].
  intros k' N. unfold JSMap.has.
  rewrite !MF.get_delete_other by congruence. auto.
Qed.

(** A second [delete] of the same key returns [false] and changes
    nothing more. *)
Theorem delete_twice (key : option jsval) (c : Cache) :
  is_string key = true ->
  delete key (fst (delete key c)) = (fst (delete key c), Normal false).
Proof.
  destruct key as [[k | | | | | |] |]; try discriminate. intros _.
  pose proof (delete_absent_after k c) as A.
  unfold delete at 1. now rewrite A.
Qed.

(** ** [clear] *)

(** [clear] leaves no entry and no frequency record: the size is 0,
    [keys()] is empty, the capacity is kept, a second [clear] changes
    nothing, and any key set next on a value that fits starts with
    frequency 0 and is the only key. *)
Theorem clear_forgets_everything (c : Cache) :
  size (clear c) = 0
  /\ keys (clear c) = []
  /\ maxSize (clear c) = maxSize c
  /\ clear (clear c) = clear c
  /\ (forall k, snd (has (Some (JString k)) (clear c)) = Normal false
                /\ snd (get (Some (JString k)) (clear c)) = Normal None)
  /\ (forall k v,
        byteLength v <= maxSize c ->
        frequency k (fst (set (Some (JString k)) (Some (JBuffer v)) (clear c))) = Some 0
        /\ keys (fst (set (Some (JString k)) (Some (JBuffer v)) (clear c))) = [k]
        /\ size (fst (set (Some (JString k)) (Some (JBuffer v)) (clear c)))
           = byteLength v).
Proof.
  repeat (split; [reflexivity |]).
  split; [intros k; split; reflexivity |].
  intros k v H. unfold maxSize in H.
  unfold set, clear, free, hasCapacity, delete. cbn [p_maxSize p_size p_data p_accessCount JSMap.clear JSMap.get fst].
  apply Z.ltb_ge in H. rewrite H. cbn [fst p_maxSize p_size p_data p_accessCount].
  apply Z.ltb_ge in H.
  replace (byteLength v <=? p_maxSize c - 0) with true
    by (symmetry; apply Z.leb_le; lia).
  unfold frequency, keys, size, JSMap.has. cbn [p_data p_size p_accessCount].
  simpl. now rewrite String.eqb_refl.
Qed.

(** ** [has] *)

(** [has] never changes the cache; on a string key it returns [true]
    exactly when the key is listed by [keys()], and exactly when [get]
    returns a value. *)
Theorem has_only_reads (k : string) (c : Cache) :
  (forall key, fst (has key c) = c)
  /\ (snd (has (Some (JString k)) c) = Normal true <-> In k (keys c))
  /\ (snd (has (Some (JString k)) c) = Normal true <->
      exists v, snd (get (Some (JString k)) c) = Normal (Some v)).
Proof.
  split; [| split].
  - intros key. destruct key as [[] |]; reflexivity.
  - cbn [has snd]. unfold keys. rewrite <- MF.has_In_keys.
    split; [congruence | intros ->; reflexivity].
  - cbn [has snd]. unfold get, JSMap.has.
    destruct (JSMap.get k (p_data c)) as [v |] eqn:G.
    + split; [intros _ | reflexivity]. exists v.
      destruct (JSMap.get k (p_accessCount c)); reflexivity.
    + split; [discriminate | intros [v H]; discriminate].
Qed.

(** ** The constructor and the capacity *)

(** The constructor returns a cache exactly for a capacity left out
    (taken as 0) or an integer from 0 to [Number.MAX_SAFE_INTEGER]; the
    cache is empty, of size 0 and of that capacity. *)
Theorem constructor_accepts_exactly (arg : option jsval) (c : Cache) :
  constructor arg = Normal c <->
  exists z, (arg = None /\ z = 0 \/ arg = Some (JInt z))
            /\ 0 <= z <= MAX_SAFE_INTEGER
            /\ c = mkCache z 0 [] [].
Proof.
  split.
  - unfold constructor. intros H.
    destruct arg as [v |].
    + destruct v as [s | b | z | | | b |]; try discriminate.
      destruct (negb (isSafeInteger (JInt z)) || (z <? 0)) eqn:E; try discriminate.
      apply orb_false_iff in E as [E1 E2].
      apply negb_false_iff in E1. unfold isSafeInteger in E1.
      apply Z.leb_le in E1. apply Z.ltb_ge in E2.
      exists z. inversion H. repeat split; auto. lia.
    + exists 0. inversion H. repeat split; auto; try lia.
      unfold MAX_SAFE_INTEGER. lia.
  - intros [z [[[-> ->] | ->] [R ->]]].
    + reflexivity.
    + now apply constructor_accepts.
Qed.

(** No sequence of calls changes the capacity. *)
Theorem capacity_is_fixed (ops : list call) (c : Cache) :
  Forall (fun c' => maxSize c' = maxSize c) (trace ops c).
Proof.
  revert c. induction ops as [| o r IH]; intros c; simpl; constructor.
  - apply step_maxSize.
  - eapply Forall_impl; [| apply IH].
    intros c' H. unfold maxSize in *. now rewrite H, step_maxSize.
Qed.

(** ** What every reachable cache satisfies *)

Lemma get_Some_In {V : Type} (k : string) (v : V) (m : JSMap.t V) :
  JSMap.get k m = Some v -> In (k, v) m.
Proof.
  induction m as [| [k0 v0] r IH]; simpl; [discriminate |].
  destruct (String.eqb_spec k k0) as [-> | N].
  - intros H. inversion H. now left.
  - intros H. right. auto.
Qed.

Lemma In_get_Some {V : Type} (k : string) (v : V) (m : JSMap.t V) :
  NoDup (JSMap.keys m) -> In (k, v) m -> JSMap.get k m = Some v.
Proof.
  induction m as [| [k0 v0] r IH]; simpl; [tauto |].
  intros ND [E | I]; inversion ND as [| ? ? Hn ND']; subst.
  - inversion E; subst. now rewrite String.eqb_refl.
  - destruct (String.eqb_spec k k0) as [-> | N]; auto.
    exfalso. apply Hn. change (In (fst (k0, v)) (map fst r)). now apply in_map.
Qed.

Lemma Forall_map_set {V : Type} (P : string * V -> Prop) (k : string) (v : V)
    (m : JSMap.t V) :
  Forall P m -> P (k, v) -> Forall P (JSMap.set k v m).
Proof.
  intros F Pk. induction m as [| [k0 v0] r IH]; simpl.
  - now constructor.
  - inversion F; subst.
    destruct (String.eqb k k0); constructor; auto.
Qed.

Lemma Forall_map_delete {V : Type} (P : string * V -> Prop) (k : string)
    (m : JSMap.t V) :
  Forall P m -> Forall P (JSMap.delete k m).
Proof.
  intros F. induction m as [| [k0 v0] r IH]; simpl; auto.
  inversion F; subst.
  destruct (String.eqb k k0); auto.
Qed.

Lemma delete_counts_nonneg (key : option jsval) (c : Cache) :
  counts_nonneg c -> counts_nonneg (fst (delete key c)).
Proof.
  intros F. unfold delete.
  destruct key as [[k | | | | | |] |]; auto.
  destruct (JSMap.get k (p_data c)); auto.
  now apply Forall_map_delete.
Qed.

Lemma free_loop_counts_nonneg (neededSize : Z) (l : list (string * Z)) (c : Cache) :
  counts_nonneg c -> counts_nonneg (free_loop neededSize l c).
Proof.
  revert c. induction l as [| e r IH]; intros c F; cbn [free_loop]; auto.
  destruct (hasCapacity neededSize c); auto using delete_counts_nonneg.
Qed.

Lemma free_counts_nonneg (neededSize : Z) (c : Cache) :
  counts_nonneg c -> counts_nonneg (free neededSize c).
Proof.
  intros F. unfold free.
  destruct (hasCapacity neededSize c); auto using free_loop_counts_nonneg.
Qed.

Lemma count_nonneg (k : string) (n : Z) (c : Cache) :
  counts_nonneg c -> JSMap.get k (p_accessCount c) = Some n -> 0 <= n.
Proof.
  intros F G. apply get_Some_In in G.
  unfold counts_nonneg in F. rewrite Forall_forall in F.
  apply (F (k, n) G).
Qed.

Lemma step_counts_nonneg (o : call) (c : Cache) :
  counts_nonneg c -> counts_nonneg (step o c).
Proof.
  intros F. destruct o; cbn [step]; auto using delete_counts_nonneg.
  - unfold get. destruct key as [[k | | | | | |] |]; auto.
    destruct (JSMap.get k (p_data c)); auto.
    destruct (JSMap.get k (p_accessCount c)) as [n |] eqn:A; auto.
    apply Forall_map_set; auto. simpl.
    pose proof (count_nonneg k n c F A). lia.
  - unfold set. destruct key as [[k | | | | | |] |]; auto.
    destruct value as [[| v | | | | |] |]; auto.
    destruct (p_maxSize c <? byteLength v); auto.
    cbn [fst]. apply Forall_map_set.
    + apply free_counts_nonneg, delete_counts_nonneg, F.
    + simpl. destruct (JSMap.get k (p_accessCount c)) as [n |] eqn:A; [| lia].
      apply (count_nonneg k n c F A).
  - unfold rename. destruct oldKey as [[o | | | | | |] |]; auto.
    destruct newKey as [[n | | | | | |] |]; auto.
    destruct (JSMap.get o (p_data c)); auto.
    destruct (JSMap.has n (p_data c)); auto.
    destruct (JSMap.get o (p_accessCount c)) as [cnt |] eqn:A; auto.
    apply Forall_map_set; auto. simpl. apply (count_nonneg o cnt c F A).
  - unfold has. destruct key as [[k | | | | | |] |]; auto.
  - constructor.
Qed.

Lemma reachable_counts_nonneg (c : Cache) : reachable c -> counts_nonneg c.
Proof.
  induction 1 as [arg c H | o c R IH]; [| now apply step_counts_nonneg].
  unfold constructor in H.
  destruct (match arg with Some v => v | None => JInt 0 end); try discriminate.
  destruct (negb (isSafeInteger (JInt z)) || (z <? 0)); try discriminate.
  inversion H. constructor.
Qed.

(** In every cache a program can hold, [keys()] lists no key twice, and
    every key it lists has a frequency counter, which is not negative.
    The size is not negative either. *)
Theorem keys_unique_and_counted (c : Cache) :
  reachable c ->
  NoDup (keys c)
  /\ 0 <= size c
  /\ forall k, In k (keys c) -> exists n, frequency k c = Some n /\ 0 <= n.
Proof.
  intros R. pose proof (reachable_wf c R) as W. split; [| split].
  - apply (wf_data_keys c W).
  - unfold size. rewrite (wf_size c W). apply total_bytes_nonneg.
  - intros k I. apply MF.has_In_keys in I.
    destruct (stored_keys_counted c k R I) as [n A].
    exists n. unfold frequency. rewrite I. split; auto.
    apply (count_nonneg k n c (reachable_counts_nonneg c R) A).
Qed.

(** ** [set]: what it keeps and what it evicts *)

(** An entry that is still stored after the loop of [#free] has the value
    and the frequency record it had before. *)
Lemma free_loop_survivor (neededSize : Z) (l : list (string * Z)) (c : Cache)
    (k : string) :
  stored k (free_loop neededSize l c) = true ->
  JSMap.get k (p_data (free_loop neededSize l c)) = JSMap.get k (p_data c)
  /\ JSMap.get k (p_accessCount (free_loop neededSize l c))
     = JSMap.get k (p_accessCount c).
Proof.
  revert c. induction l as [| e r IH]; intros c S; cbn [free_loop] in *; auto.
  destruct (hasCapacity neededSize c); auto.
  set (c1 := fst (delete (Some (JString (fst e))) c)) in *.
  destruct (IH c1 S) as [D A]. rewrite D, A.
  assert (S1 : stored k c1 = true).
  { apply MF.has_In_keys. apply MF.has_In_keys in S.
    change (In k (keys (free_loop neededSize r c1))) in S.
    rewrite free_loop_keys in S. apply filter_In in S. tauto. }
  unfold c1, delete in *.
  destruct (JSMap.get (fst e) (p_data c)) as [v |] eqn:G; auto.
  cbn [fst p_data p_accessCount] in *.
  destruct (String.eqb_spec (fst e) k) as [E | N].
  - subst k. unfold stored, JSMap.has in S1. cbn [p_data] in S1.
    rewrite MF.get_delete_same in S1. discriminate.
  - now rewrite !MF.get_delete_other.
Qed.

Lemma free_survivor (neededSize : Z) (c : Cache) (k : string) :
  stored k (free neededSize c) = true ->
  JSMap.get k (p_data (free neededSize c)) = JSMap.get k (p_data c)
  /\ JSMap.get k (p_accessCount (free neededSize c))
     = JSMap.get k (p_accessCount c).
Proof.
  unfold free. destruct (hasCapacity neededSize c); auto.
  apply free_loop_survivor.
Qed.

(** Whatever [set] does, an entry under another key that is still stored
    afterwards has the value and the frequency counter it had before:
    [set] removes entries, it never alters one. *)
Theorem set_keeps_survivors (k k' : string) (value : option jsval) (c : Cache) :
  k' <> k ->
  stored k' (fst (set (Some (JString k)) value c)) = true ->
  stored k' c = true
  /\ JSMap.get k' (p_data (fst (set (Some (JString k)) value c)))
     = JSMap.get k' (p_data c)
  /\ frequency k' (fst (set (Some (JString k)) value c)) = frequency k' c.
Proof.
  intros N. unfold set.
  destruct value as [[| v | | | | |] |];
    try (intros S; cbn [fst] in *; rewrite S; auto).
  destruct (p_maxSize c <? byteLength v);
    [intros S; cbn [fst] in *; rewrite S; auto |].
  cbn [fst].
  set (c1 := fst (delete (Some (JString k)) c)).
  set (c2 := free (byteLength v) c1).
  unfold stored, frequency, JSMap.has. cbn [p_data p_accessCount].
  rewrite !MF.get_set_other by congruence.
  intros S.
  assert (S2 : stored k' c2 = true) by exact S.
  destruct (free_survivor (byteLength v) c1 k' S2) as [D A].
  fold c2 in D, A. rewrite D, A in *.
  assert (D1 : JSMap.get k' (p_data c1) = JSMap.get k' (p_data c)
               /\ JSMap.get k' (p_accessCount c1) = JSMap.get k' (p_accessCount c)).
  { unfold c1, delete. destruct (JSMap.get k (p_data c)); auto.
    cbn [fst p_data p_accessCount]. now rewrite !MF.get_delete_other by congruence. }
  destruct D1 as [D1 A1]. rewrite D1, A1 in *.
  auto.
Qed.

(** When the value fits beside the entries under the other keys, [set]
    evicts nothing: the other keys keep their order, values and frequency
    counters, the key is last, and the size is the old size, less the
    length of the value replaced, plus the length of the new value. *)
Theorem set_with_room (k : string) (v : Buffer) (c : Cache) :
  reachable c ->
  size c
  - match JSMap.get k (p_data c) with Some v0 => byteLength v0 | None => 0 end
  + byteLength v <= maxSize c ->
  keys (fst (set (Some (JString k)) (Some (JBuffer v)) c))
  = filter (fun x => negb (String.eqb k x)) (keys c) ++ [k]
  /\ size (fst (set (Some (JString k)) (Some (JBuffer v)) c))
     = size c
       - match JSMap.get k (p_data c) with Some v0 => byteLength v0 | None => 0 end
       + byteLength v
  /\ forall k', k' <> k ->
       JSMap.get k' (p_data (fst (set (Some (JString k)) (Some (JBuffer v)) c)))
       = JSMap.get k' (p_data c)
       /\ frequency k' (fst (set (Some (JString k)) (Some (JBuffer v)) c))
          = frequency k' c.
Proof.
  intros R H. pose proof (reachable_wf c R) as W.
  unfold size, maxSize in *.
  set (c1 := fst (delete (Some (JString k)) c)).
  assert (W1 : wf c1) by now apply delete_wf.
  assert (Sz : p_size c1 = p_size c
               - match JSMap.get k (p_data c) with
                 | Some v0 => byteLength v0 | None => 0 end).
  { unfold c1, delete. destruct (JSMap.get k (p_data c)); cbn [fst p_size]; lia. }
  assert (M1 : p_maxSize c1 = p_maxSize c) by apply delete_maxSize.
  assert (P1 : 0 <= p_size c1).
  { rewrite (wf_size c1 W1). apply total_bytes_nonneg. }
  assert (K1 : JSMap.keys (p_data c1)
               = filter (fun x => negb (String.eqb k x)) (keys c)).
  { unfold c1, delete, keys. destruct (JSMap.get k (p_data c)) eqn:G; cbn [fst p_data].
    - apply MF.keys_delete.
    - symmetry. apply filter_all. intros x Hx.
      apply negb_true_iff, String.eqb_neq. intros ->.
      apply MF.get_None_not_In in G. auto. }
  assert (Cap : hasCapacity (byteLength v) c1 = true).
  { unfold hasCapacity. apply Z.leb_le. lia. }
  assert (Fresh : JSMap.get k (p_data c1) = None) by apply delete_absent_after.
  unfold set.
  replace (p_maxSize c <? byteLength v) with false
    by (symmetry; apply Z.ltb_ge; lia).
  cbn [fst]. fold c1. unfold free. rewrite Cap.
  unfold keys at 1. unfold frequency, JSMap.has. cbn [p_data p_size p_accessCount].
  split; [| split].
  - rewrite MF.set_fresh by auto. unfold JSMap.keys in *.
    rewrite map_app, K1. reflexivity.
  - lia.
  - intros k' N. rewrite !MF.get_set_other by congruence.
    unfold c1, delete. destruct (JSMap.get k (p_data c)); auto.
    cbn [fst p_data p_accessCount]. now rewrite !MF.get_delete_other by congruence.
Qed.

Lemma free_loop_stored_before (neededSize : Z) (l : list (string * Z)) (c : Cache)
    (k : string) :
  stored k (free_loop neededSize l c) = true -> stored k c = true.
Proof.
  intros S. apply MF.has_In_keys. apply MF.has_In_keys in S.
  change (In k (keys (free_loop neededSize l c))) in S.
  rewrite free_loop_keys in S. apply filter_In in S. tauto.
Qed.

(** The loop of [#free] runs down a table sorted by count, so an entry it
    removes has a count no higher than that of an entry it leaves. *)
Lemma free_loop_lfu (neededSize : Z) (l : list (string * Z)) :
  forall c : Cache,
    StronglySorted le_count l ->
    NoDup (map fst l) ->
    (forall k n, stored k c = true ->
                 JSMap.get k (p_accessCount c) = Some n -> In (k, n) l) ->
    forall k1 k2 n1 n2,
      stored k1 c = true -> JSMap.get k1 (p_accessCount c) = Some n1 ->
      stored k2 c = true -> JSMap.get k2 (p_accessCount c) = Some n2 ->
      stored k1 (free_loop neededSize l c) = false ->
      stored k2 (free_loop neededSize l c) = true ->
      n1 <= n2.
Proof.
  induction l as [| e r IH]; intros c SS ND Hin k1 k2 n1 n2 S1 A1 S2 A2 E1 E2;
    cbn [free_loop] in *; [congruence |].
  destruct (hasCapacity neededSize c); [congruence |].
  inversion SS as [| ? ? SSr Fr]; subst.
  inversion ND as [| ? ? Hn NDr]; subst.
  set (c1 := fst (delete (Some (JString (fst e))) c)) in *.
  pose proof (free_loop_stored_before _ _ _ _ E2) as S2'.
  assert (Hc1 : forall k, fst e <> k ->
                  stored k c1 = stored k c
                  /\ JSMap.get k (p_accessCount c1) = JSMap.get k (p_accessCount c)).
  { intros k N. unfold c1, delete, stored, JSMap.has.
    destruct (JSMap.get (fst e) (p_data c)); auto.
    cbn [fst p_data p_accessCount]. now rewrite !MF.get_delete_other. }
  destruct (JSMap.get (fst e) (p_data c)) as [v |] eqn:G.
  - assert (Gone : stored (fst e) c1 = false).
    { unfold c1, delete, stored. rewrite G. cbn [fst p_data].
      apply MF.has_false_iff, MF.get_delete_same. }
    assert (N2 : fst e <> k2) by (intros Eq; rewrite Eq in Gone; congruence).
    destruct (Hc1 k2 N2) as [S2c A2c].
    destruct (String.eqb_spec (fst e) k1) as [Ek | N1].
    + assert (He : e = (k1, n1)).
      { destruct (Hin k1 n1 S1 A1) as [He | I]; auto.
        exfalso. apply Hn. rewrite Ek.
        change (In (fst (k1, n1)) (map fst r)). now apply in_map. }
      destruct (Hin k2 n2 S2 A2) as [He2 | I2].
      * rewrite He2 in N2. now elim N2.
      * rewrite Forall_forall in Fr. specialize (Fr _ I2).
        unfold le_count in Fr. rewrite He in Fr. exact Fr.
    + destruct (Hc1 k1 N1) as [S1c A1c].
      apply (IH c1 SSr NDr) with (k1 := k1) (k2 := k2); try congruence.
      intros k n Sk Ak.
      assert (Nk : fst e <> k) by (intros Eq; rewrite Eq in Gone; congruence).
      destruct (Hc1 k Nk) as [Skc Akc].
      destruct (Hin k n) as [He | I]; try congruence.
      * rewrite He in Nk. now elim Nk.
      * exact I.
  - assert (Same : c1 = c) by (unfold c1, delete; now rewrite G).
    rewrite Same in *.
    apply (IH c SSr NDr) with (k1 := k1) (k2 := k2); auto.
    intros k n Sk Ak. destruct (Hin k n Sk Ak) as [He | I]; auto.
    exfalso. rewrite He in G. simpl in G.
    unfold stored, JSMap.has in Sk. rewrite G in Sk. discriminate.
Qed.

(** Least-frequently-used eviction.  When a [set] that stores its value
    evicts one entry and keeps another (both under other keys), the
    frequency counter of the evicted entry is not higher than that of the
    entry kept. *)
Theorem set_evicts_least_frequent (k k1 k2 : string) (n1 n2 : Z) (v : Buffer)
    (c : Cache) :
  reachable c ->
  byteLength v <= maxSize c ->
  k1 <> k -> k2 <> k ->
  frequency k1 c = Some n1 ->
  frequency k2 c = Some n2 ->
  stored k1 (fst (set (Some (JString k)) (Some (JBuffer v)) c)) = false ->
  stored k2 (fst (set (Some (JString k)) (Some (JBuffer v)) c)) = true ->
  n1 <= n2.
Proof.
  intros R H N1 N2 F1 F2. pose proof (reachable_wf c R) as W.
  unfold maxSize in H. unfold set.
  replace (p_maxSize c <? byteLength v) with false
    by (symmetry; apply Z.ltb_ge; lia).
  cbn [fst].
  set (c1 := fst (delete (Some (JString k)) c)).
  assert (W1 : wf c1) by now apply delete_wf.
  unfold stored at 1 2, JSMap.has. cbn [p_data].
  rewrite !MF.get_set_other by congruence.
  fold (JSMap.has k1 (p_data (free (byteLength v) c1))).
  fold (JSMap.has k2 (p_data (free (byteLength v) c1))).
  assert (Hc1 : forall x, x <> k ->
                  stored x c1 = stored x c
                  /\ JSMap.get x (p_accessCount c1) = JSMap.get x (p_accessCount c)).
  { intros x N. unfold c1, delete, stored, JSMap.has.
    destruct (JSMap.get k (p_data c)); auto.
    cbn [fst p_data p_accessCount]. now rewrite !MF.get_delete_other by congruence. }
  unfold frequency in F1, F2.
  destruct (JSMap.has k1 (p_data c)) eqn:S1; [| discriminate].
  destruct (JSMap.has k2 (p_data c)) eqn:S2; [| discriminate].
  destruct (Hc1 k1 N1) as [S1c A1c]. destruct (Hc1 k2 N2) as [S2c A2c].
  unfold free. destruct (hasCapacity (byteLength v) c1).
  - intros E1 _. unfold stored in S1c. congruence.
  - intros E1 E2.
    apply (free_loop_lfu (byteLength v)
             (sort_by_count (JSMap.entries (p_accessCount c1))) c1)
      with (k1 := k1) (k2 := k2); auto; try congruence.
    + apply sort_by_count_sorted.
    + apply NoDup_keys_sort, (wf_count_keys c1 W1).
    + intros x n _ A. apply In_sort_by_count. now apply get_Some_In.
    + unfold stored in *. congruence.
    + unfold stored in *. congruence.
Qed.

(** ** Histories without [rename] *)

Lemma delete_same_keys (key : option jsval) (c : Cache) :
  JSMap.keys (p_accessCount c) = JSMap.keys (p_data c) ->
  JSMap.keys (p_accessCount (fst (delete key c)))
  = JSMap.keys (p_data (fst (delete key c))).
Proof.
  intros E. unfold delete.
  destruct key as [[k | | | | | |] |]; auto.
  destruct (JSMap.get k (p_data c)); auto.
  cbn [fst p_data p_accessCount]. now rewrite !MF.keys_delete, E.
Qed.

Lemma free_loop_same_keys (neededSize : Z) (l : list (string * Z)) (c : Cache) :
  JSMap.keys (p_accessCount c) = JSMap.keys (p_data c) ->
  JSMap.keys (p_accessCount (free_loop neededSize l c))
  = JSMap.keys (p_data (free_loop neededSize l c)).
Proof.
  revert c. induction l as [| e r IH]; intros c E; cbn [free_loop]; auto.
  destruct (hasCapacity neededSize c); auto using delete_same_keys.
Qed.

Lemma step_same_keys (o : call) (c : Cache) :
  match o with CallRename _ _ => False | _ => True end ->
  JSMap.keys (p_accessCount c) = JSMap.keys (p_data c) ->
  JSMap.keys (p_accessCount (step o c)) = JSMap.keys (p_data (step o c)).
Proof.
  intros Ho E. destruct o; cbn [step]; auto using delete_same_keys;
    try contradiction.
  - unfold get. destruct key as [[k | | | | | |] |]; auto.
    destruct (JSMap.get k (p_data c)); auto.
    destruct (JSMap.get k (p_accessCount c)) as [n |] eqn:A; auto.
    cbn [fst p_data p_accessCount]. rewrite MF.keys_set_present; auto.
    unfold JSMap.has. now rewrite A.
  - unfold set. destruct key as [[k | | | | | |] |]; auto.
    destruct value as [[| v | | | | |] |]; auto.
    destruct (p_maxSize c <? byteLength v); auto.
    cbn [fst p_data p_accessCount].
    set (c2 := free (byteLength v) (fst (delete (Some (JString k)) c))).
    assert (E2 : JSMap.keys (p_accessCount c2) = JSMap.keys (p_data c2)).
    { unfold c2, free.
      destruct (hasCapacity (byteLength v) (fst (delete (Some (JString k)) c)));
        auto using delete_same_keys, free_loop_same_keys. }
    assert (Fresh : JSMap.get k (p_data c2) = None)
      by apply free_absent, delete_absent_after.
    assert (FreshA : JSMap.get k (p_accessCount c2) = None).
    { apply MF.get_None_not_In. rewrite E2. now apply MF.get_None_not_In. }
    rewrite !MF.set_fresh by auto. unfold JSMap.keys in *.
    rewrite !map_app, E2. reflexivity.
  - unfold has. destruct key as [[k | | | | | |] |]; auto.
Qed.

(** As long as [rename] is never called, the frequency table holds
    exactly the stored keys, in the order of [keys()]; a [set] of a key
    that is not stored then starts at frequency 0. *)
Theorem without_rename_table_matches (arg : option jsval) (c0 : Cache)
    (ops : list call) :
  constructor arg = Normal c0 ->
  renames_nothing ops ->
  JSMap.keys (p_accessCount (run ops c0)) = keys (run ops c0)
  /\ forall k v,
       stored k (run ops c0) = false ->
       byteLength v <= maxSize (run ops c0) ->
       frequency k (fst (set (Some (JString k)) (Some (JBuffer v)) (run ops c0)))
       = Some 0.
Proof.
  intros H S.
  assert (E0 : JSMap.keys (p_accessCount c0) = JSMap.keys (p_data c0)).
  { apply constructor_wf in H as W. unfold constructor in H.
    destruct (match arg with Some v => v | None => JInt 0 end); try discriminate.
    destruct (negb (isSafeInteger (JInt z)) || (z <? 0)); try discriminate.
    now inversion H. }
  assert (E : JSMap.keys (p_accessCount (run ops c0))
              = JSMap.keys (p_data (run ops c0))).
  { clear H. revert c0 E0. induction S as [| o r Ho S IH]; intros c0 E0; auto.
    simpl. apply IH. now apply step_same_keys. }
  split; [exact E |].
  intros k v St Hv. unfold maxSize in Hv.
  rewrite set_frequency_from_record by auto.
  unfold stored in St. apply MF.has_false_iff, MF.get_None_not_In in St.
  rewrite <- E in St. apply MF.get_None_not_In in St. now rewrite St.
Qed.

(** ** Round trips *)

Lemma delete_set_fresh {V : Type} (k : string) (v : V) (m : JSMap.t V) :
  JSMap.get k m = None -> JSMap.delete k (JSMap.set k v m) = m.
Proof.
  induction m as [| [k0 v0] r IH]; simpl.
  - now rewrite String.eqb_refl.
  - destruct (String.eqb k k0) eqn:E; [discriminate |].
    intros G. simpl. rewrite E. now rewrite IH.
Qed.

(** A [set] of a key that is not stored, on a value that fits in the free
    space, is undone by [delete]: it returns [true] and the entries, their
    order and the size are as before the [set]. *)
Theorem set_then_delete (k : string) (v : Buffer) (c : Cache) :
  reachable c ->
  stored k c = false ->
  size c + byteLength v <= maxSize c ->
  snd (delete (Some (JString k)) (fst (set (Some (JString k)) (Some (JBuffer v)) c)))
  = Normal true
  /\ p_data (fst (delete (Some (JString k))
                   (fst (set (Some (JString k)) (Some (JBuffer v)) c))))
     = p_data c
  /\ size (fst (delete (Some (JString k))
                 (fst (set (Some (JString k)) (Some (JBuffer v)) c))))
     = size c.
Proof.
  intros R St H. pose proof (reachable_wf c R) as W.
  unfold size, maxSize in *. unfold stored in St.
  apply MF.has_false_iff in St.
  assert (P : 0 <= p_size c).
  { rewrite (wf_size c W). apply total_bytes_nonneg. }
  unfold set.
  replace (p_maxSize c <? byteLength v) with false
    by (symmetry; apply Z.ltb_ge; lia).
  assert (E1 : fst (delete (Some (JString k)) c) = c)
    by (unfold delete; now rewrite St).
  assert (E2 : free (byteLength v) c = c).
  { unfold free, hasCapacity.
    replace (byteLength v <=? p_maxSize c - p_size c) with true
      by (symmetry; apply Z.leb_le; lia).
    reflexivity. }
  cbn [fst]. rewrite E1, E2.
  unfold delete. cbn [p_data p_size p_maxSize p_accessCount].
  rewrite MF.get_set_same. cbn [fst snd p_data p_size].
  split; [reflexivity |]. split; [now apply delete_set_fresh | lia].
Qed.

(** Renaming a stored key to a key that is not stored, and back: both
    calls return [true]; the key has its value and its frequency counter
    again, the other key is not stored, the size is unchanged, and the
    key is now the last of [keys()]. *)
Theorem rename_there_and_back (a b : string) (c : Cache) :
  reachable c ->
  stored a c = true ->
  stored b c = false ->
  snd (rename (Some (JString a)) (Some (JString b)) c) = Normal true
  /\ snd (rename (Some (JString b)) (Some (JString a))
            (fst (rename (Some (JString a)) (Some (JString b)) c))) = Normal true
  /\ JSMap.get a (p_data (fst (rename (Some (JString b)) (Some (JString a))
                                 (fst (rename (Some (JString a)) (Some (JString b)) c)))))
     = JSMap.get a (p_data c)
  /\ frequency a (fst (rename (Some (JString b)) (Some (JString a))
                         (fst (rename (Some (JString a)) (Some (JString b)) c))))
     = frequency a c
  /\ stored b (fst (rename (Some (JString b)) (Some (JString a))
                      (fst (rename (Some (JString a)) (Some (JString b)) c))))
     = false
  /\ size (fst (rename (Some (JString b)) (Some (JString a))
                  (fst (rename (Some (JString a)) (Some (JString b)) c))))
     = size c
  /\ keys (fst (rename (Some (JString b)) (Some (JString a))
                  (fst (rename (Some (JString a)) (Some (JString b)) c))))
     = filter (fun x => negb (String.eqb a x)) (keys c) ++ [a].
Proof.
  intros R Sa Sb.
  destruct (stored_keys_counted c a R Sa) as [cnt A].
  unfold stored in Sa, Sb. pose proof Sa as Sa'.
  apply MF.has_true_iff in Sa' as [v G].
  pose proof Sb as Gb. apply MF.has_false_iff in Gb.
  assert (N : a <> b) by congruence.
  unfold rename at 1 3 5 7 9 11 13. rewrite G, Sb, A. cbn [fst snd].
  assert (D1b : JSMap.get b (JSMap.delete a (JSMap.set b v (p_data c))) = Some v).
  { rewrite MF.get_delete_other by auto. apply MF.get_set_same. }
  assert (D1a : JSMap.get a (JSMap.delete a (JSMap.set b v (p_data c))) = None)
    by apply MF.get_delete_same.
  unfold rename. cbn [p_data p_accessCount p_size p_maxSize].
  rewrite D1b. unfold JSMap.has at 1 2 3 4 5 6. rewrite D1a.
  rewrite MF.get_set_same. cbn [fst snd].
  unfold frequency, stored, size, keys, JSMap.has.
  cbn [p_data p_accessCount p_size].
  rewrite Sa' || idtac.
  rewrite MF.get_delete_other by congruence.
  rewrite !MF.get_set_same, G, A, MF.get_delete_same.
  repeat (split; [reflexivity |]).
  rewrite MF.keys_delete, (MF.set_fresh a v) by auto.
  rewrite (MF.set_fresh b v) by auto.
  unfold JSMap.keys.
  rewrite map_app, filter_app. cbn [map fst filter].
  destruct (String.eqb_spec b a); [congruence |]. cbn [negb].
  f_equal.
  change (map fst (JSMap.delete a (p_data c ++ [(b, v)])))
    with (JSMap.keys (JSMap.delete a (p_data c ++ [(b, v)]))).
  rewrite MF.keys_delete. unfold JSMap.keys.
  rewrite map_app, !filter_app. cbn [map fst filter].
  destruct (String.eqb_spec a b); [congruence |]. cbn [negb filter].
  rewrite String.eqb_refl. cbn [negb]. rewrite app_nil_r.
  apply filter_all. intros x Hx. apply filter_In in Hx as [Hx _].
  apply negb_true_iff, String.eqb_neq. intros ->.
  apply MF.get_None_not_In in Gb. auto.
Qed.

(** ** The further properties at concrete caches *)

Lemma delete_twice_witness :
  is_string (str "x") = true
  /\ delete (str "x")
       (fst (delete (str "x") (run history_rename (cache_of_capacity 3))))
     = (fst (delete (str "x") (run history_rename (cache_of_capacity 3))),
        Normal false).
Proof.
  split; [reflexivity |].
  apply (delete_twice (str "x") (run history_rename (cache_of_capacity 3))).
  reflexivity.
Defined.

Lemma keys_unique_and_counted_witness :
  reachable (run history_rename (cache_of_capacity 3))
  /\ NoDup (keys (run history_rename (cache_of_capacity 3)))
  /\ 0 <= size (run history_rename (cache_of_capacity 3)).
Proof.
  split; [exact history_rename_reachable |].
  destruct (keys_unique_and_counted (run history_rename (cache_of_capacity 3))
              history_rename_reachable) as [A [B _]].
  split; [exact A | exact B].
Defined.

Lemma set_keeps_survivors_witness :
  "b" <> "c"
  /\ stored "b" (fst (set (Some (JString "c")) (buf [x00; x01])
                        (run history_rename (cache_of_capacity 3)))) = true
  /\ stored "b" (run history_rename (cache_of_capacity 3)) = true
  /\ JSMap.get "b" (p_data (fst (set (Some (JString "c")) (buf [x00; x01])
                                   (run history_rename (cache_of_capacity 3)))))
     = JSMap.get "b" (p_data (run history_rename (cache_of_capacity 3)))
  /\ frequency "b" (fst (set (Some (JString "c")) (buf [x00; x01])
                           (run history_rename (cache_of_capacity 3))))
     = frequency "b" (run history_rename (cache_of_capacity 3)).
Proof.
  split; [discriminate |]. split; [reflexivity |].
  apply (set_keeps_survivors "c" "b" (buf [x00; x01])
           (run history_rename (cache_of_capacity 3)));
    [discriminate | reflexivity].
Defined.

Lemma set_with_room_witness :
  reachable (run history_rename (cache_of_capacity 3))
  /\ keys (fst (set (Some (JString "c")) (Some (JBuffer one_byte))
                  (run history_rename (cache_of_capacity 3))))
     = filter (fun x => negb (String.eqb "c" x))
              (keys (run history_rename (cache_of_capacity 3))) ++ ["c"].
Proof.
  split; [exact history_rename_reachable |].
  apply (set_with_room "c" one_byte (run history_rename (cache_of_capacity 3))
           history_rename_reachable).
  discriminate.
Defined.

Lemma set_evicts_least_frequent_witness :
  reachable (run history_rename (cache_of_capacity 3))
  /\ frequency "x" (run history_rename (cache_of_capacity 3)) = Some 1
  /\ frequency "b" (run history_rename (cache_of_capacity 3)) = Some 2
  /\ stored "x" (fst (set (Some (JString "c")) (Some (JBuffer [x00; x01]))
                        (run history_rename (cache_of_capacity 3)))) = false
  /\ stored "b" (fst (set (Some (JString "c")) (Some (JBuffer [x00; x01]))
                        (run history_rename (cache_of_capacity 3)))) = true
  /\ 1 <= 2.
Proof.
  split; [exact history_rename_reachable |].
  repeat (split; [reflexivity |]).
  apply (set_evicts_least_frequent "c" "x" "b" 1 2 [x00; x01]
           (run history_rename (cache_of_capacity 3)) history_rename_reachable);
    try discriminate; reflexivity.
Defined.

Lemma without_rename_table_matches_witness :
  constructor (num 3) = Normal (cache_of_capacity 3)
  /\ renames_nothing (removelast history_rename)
  /\ JSMap.keys (p_accessCount (run (removelast history_rename) (cache_of_capacity 3)))
     = keys (run (removelast history_rename) (cache_of_capacity 3)).
Proof.
  assert (S : renames_nothing (removelast history_rename))
    by (repeat constructor).
  split; [reflexivity |]. split; [exact S |].
  apply (without_rename_table_matches (num 3) (cache_of_capacity 3)
           (removelast history_rename) eq_refl S).
Defined.

Lemma set_then_delete_witness :
  reachable (run history_rename (cache_of_capacity 3))
  /\ stored "c" (run history_rename (cache_of_capacity 3)) = false
  /\ p_data (fst (delete (Some (JString "c"))
                    (fst (set (Some (JString "c")) (Some (JBuffer one_byte))
                              (run history_rename (cache_of_capacity 3))))))
     = p_data (run history_rename (cache_of_capacity 3)).
Proof.
  split; [exact history_rename_reachable |]. split; [reflexivity |].
  apply (set_then_delete "c" one_byte (run history_rename (cache_of_capacity 3))
           history_rename_reachable); [reflexivity | discriminate].
Defined.

Lemma rename_there_and_back_witness :
  reachable (run history_rename (cache_of_capacity 3))
  /\ stored "x" (run history_rename (cache_of_capacity 3)) = true
  /\ stored "y" (run history_rename (cache_of_capacity 3)) = false
  /\ snd (rename (Some (JString "x")) (Some (JString "y"))
            (run history_rename (cache_of_capacity 3))) = Normal true.
Proof.
  split; [exact history_rename_reachable |].
  split; [reflexivity |]. split; [reflexivity |].
  apply (rename_there_and_back "x" "y" (run history_rename (cache_of_capacity 3))
           history_rename_reachable); reflexivity.
Defined.

Lemma rename_moves_entry_witness :
  reachable (run history_rename (cache_of_capacity 3))
  /\ rename (Some (JString "a")) (Some (JString "b"))
       (run history_rename (cache_of_capacity 3))
     = (run history_rename (cache_of_capacity 3), Normal false)
  /\ frequency "y" (fst (rename (Some (JString "x")) (Some (JString "y"))
                           (run history_rename (cache_of_capacity 3))))
     = frequency "x" (run history_rename (cache_of_capacity 3)).
Proof.
  split; [exact history_rename_reachable |]. split.
  - apply (proj1 (rename_moves_entry "a" "b"
                    (run history_rename (cache_of_capacity 3))
                    history_rename_reachable)).
    left. reflexivity.
  - apply (proj2 (rename_moves_entry "x" "y"
                    (run history_rename (cache_of_capacity 3))
                    history_rename_reachable)); reflexivity.
Defined.

Lemma set_retains_frequency_witness :
  reachable (run history_rename (cache_of_capacity 3))
  /\ stored "b" (run history_rename (cache_of_capacity 3)) = true
  /\ frequency "b" (fst (set (Some (JString "b")) (Some (JBuffer [x00; x01]))
                           (run history_rename (cache_of_capacity 3))))
     = frequency "b" (run history_rename (cache_of_capacity 3)).
Proof.
  split; [exact history_rename_reachable |]. split; [reflexivity |].
  apply (set_retains_frequency "b" [x00; x01]
           (run history_rename (cache_of_capacity 3)) history_rename_reachable);
    [discriminate | reflexivity].
Defined.
